(** * The ephemeral hotplug-volume tracker of virt-controller's VMI metrics

    A shallow embedding of
    [pkg/monitoring/metrics/virt-controller/vmi_metrics.go]: the tracker
    map [volumeTracker.volumes], the write path
    [UpdateEphemeralVolumeCount], the collector callback
    [EphemeralVolumeMetricsCallback], the key decomposition
    [parseVolumeKey] and the launcher memory-overhead gauge accessors.

    Conventions.
    - Go strings are byte strings: [string] (a list of [ascii]).
    - A Go [map[string]T] is a [gmap string T].
    - [int64] values are [Z]; the only arithmetic the file does on them is
      a subtraction, written with its wrap-around ([Int64.sub]).
    - A run-time panic is [None] in the result of the function that
      raises it.
    - [time.Now().Unix()] is one reading [now] per call of
      [UpdateEphemeralVolumeCount]. *)

From Stdlib Require Import ZArith Ascii Floats.SpecFloat.
From stdpp Require Import base option list strings gmap fin_maps.

Local Open Scope Z_scope.

(** ** Strings: [strings.Split] with a one-byte separator *)

Module Strings.

(** [strings.Split(s, sep)] for a separator of one byte: the pieces of
    [s] between the occurrences of [sep], in order.  A string without
    [sep] (the empty string too) gives one piece. *)
Fixpoint Split (sep : ascii) (s : string) : list string :=
  match s with
  | EmptyString => [EmptyString]
  | String c rest =>
      if Ascii.eqb c sep then EmptyString :: Split sep rest
      else match Split sep rest with
           | [] => [String c EmptyString]
           | piece :: pieces => String c piece :: pieces
           end
  end.

(** [contains sep s]: the byte [sep] occurs in [s]
    ([strings.Contains] with a one-byte pattern). *)
Fixpoint contains (sep : ascii) (s : string) : bool :=
  match s with
  | EmptyString => false
  | String c rest => Ascii.eqb c sep || contains sep rest
  end.

(** [strings.Join(pieces, sep)] for a separator of one byte. *)
Fixpoint Join (sep : ascii) (pieces : list string) : string :=
  match pieces with
  | [] => EmptyString
  | [piece] => piece
  | piece :: pieces => piece +:+ String sep (Join sep pieces)
  end.

End Strings.

(** The delimiter of tracker keys. *)
Definition slash : ascii := "/"%char.

(** ** Data model *)

(** [EphemeralStatus] (vmi_metrics.go, l. 34). *)
Record EphemeralStatus : Type := mkStatus {
  timestamp : Z;
  confirmed : bool
}.

Global Instance EphemeralStatus_eq_dec : EqDecision EphemeralStatus.
Proof. solve_decision. Defined.

(** [confirmed = true] on a copy of the status (l. 143). *)
Definition confirm (st : EphemeralStatus) : EphemeralStatus :=
  mkStatus (timestamp st) true.

(** [parseVolumeKey] (l. 180): the first three pieces of the key.
    Indexing [parts[0]], [parts[1]], [parts[2]] panics (index out of
    range) when there are fewer than three pieces: [None]. *)
Definition parseVolumeKey (key : string) : option (string * string * string) :=
  let parts := Strings.Split slash key in
  match parts !! 0%nat, parts !! 1%nat, parts !! 2%nat with
  | Some p0, Some p1, Some p2 => Some (p0, p1, p2)
  | _, _, _ => None
  end.

(** The key built at l. 100:
    [vmi.Namespace + "/" + vmi.Name + "/" + volume.Name]. *)
Definition trackerKey (namespace name volumeName : string) : string :=
  namespace +:+ "/" +:+ name +:+ "/" +:+ volumeName.


(** ** 64-bit signed integers *)

Module Int64.

Definition min_int : Z := - 2 ^ 63.
Definition max_int : Z := 2 ^ 63 - 1.

(** The value of an [int64] result: the two's-complement wrap-around. *)
Definition wrap (z : Z) : Z := (z + 2 ^ 63) mod 2 ^ 64 - 2 ^ 63.

(** [a - b] on [int64]. *)
Definition sub (a b : Z) : Z := wrap (a - b).

Definition in_range (z : Z) : Prop := min_int <= z <= max_int.

End Int64.

(** ** The API objects, as far as the metrics code reads them *)

(** [v1.PersistentVolumeClaimVolumeSource] and [v1.DataVolumeSource]: the
    field the classifier reads. *)
Record PersistentVolumeClaimVolumeSource : Type := mkPVCSource {
  pvcHotpluggable : bool
}.

Record DataVolumeSource : Type := mkDVSource {
  dvHotpluggable : bool
}.

(** [v1.VolumeSource]: the two pointer fields the classifier reads; a nil
    pointer is [None]. *)
Record VolumeSource : Type := mkVolumeSource {
  PersistentVolumeClaim : option PersistentVolumeClaimVolumeSource;
  DataVolume : option DataVolumeSource
}.

(** [v1.Volume]. *)
Record Volume : Type := mkVolume {
  volumeName : string;
  volumeSource : VolumeSource
}.

(** [v1.VirtualMachineInstance]: [Namespace], [Name], [Spec.Volumes]. *)
Record VirtualMachineInstance : Type := mkVMI {
  vmiNamespace : string;
  vmiName : string;
  vmiVolumes : list Volume
}.

(** [v1.VirtualMachine]: the pointer [Spec.Template] (nil is [None]) and
    the [Spec.Volumes] it points to. *)
Record VirtualMachine : Type := mkVM {
  vmTemplate : option (list Volume)
}.

(** [vm.Spec.Template.Spec.Volumes] where the pointer is set; the
    expression panics on a nil [Spec.Template] (see
    [UpdateEphemeralVolumeCountIn]), and no volume is read then. *)
Definition vmTemplateVolumes (vm : VirtualMachine) : list Volume :=
  match vmTemplate vm with
  | Some volumes => volumes
  | None => []
  end.

(** [isHotplugVolume] (l. 152). *)
Definition isHotplugVolume (volume : Volume) : bool :=
  match PersistentVolumeClaim (volumeSource volume) with
  | Some pvc => pvcHotpluggable pvc
  | None => false
  end
  ||
  match DataVolume (volumeSource volume) with
  | Some dv => dvHotpluggable dv
  | None => false
  end.

(** ** The tracker: [volumeTracker.volumes] *)

Abbreviation Ledger := (gmap string EphemeralStatus).
Abbreviation VolumeMap := (gmap string Volume).

(** The loop of l. 87-89: the desired template's volumes by name. *)
Definition indexVolumes (volumes : list Volume) : VolumeMap :=
  foldl (λ m volume, <[volumeName volume := volume]> m) ∅ volumes.

(** One iteration of the loop of l. 95-125, on the pair
    ([vmiVolumeMap], [volumeTracker.volumes]). *)
Definition trackVolume (now : Z) (vmi : VirtualMachineInstance)
    (vmVolumeMap : VolumeMap) (acc : VolumeMap * Ledger) (volume : Volume)
    : VolumeMap * Ledger :=
  let '(vmiVolumeMap, volumes) := acc in
  if negb (isHotplugVolume volume) then (vmiVolumeMap, volumes)
  else
    let vmiVolumeMap := <[volumeName volume := volume]> vmiVolumeMap in
    let key := trackerKey (vmiNamespace vmi) (vmiName vmi) (volumeName volume) in
    match vmVolumeMap !! volumeName volume with
    | None =>
        (* only set timestamp on first detection *)
        match volumes !! key with
        | Some _ => (vmiVolumeMap, volumes)
        | None => (vmiVolumeMap, <[key := mkStatus now false]> volumes)
        end
    | Some _ =>
        (* volume exists in both specs *)
        match volumes !! key with
        | None => (vmiVolumeMap, volumes)
        | Some volumeStatus =>
            let timeDiff := Int64.sub now (timestamp volumeStatus) in
            if timeDiff <=? 60 then (vmiVolumeMap, delete key volumes)
            else (vmiVolumeMap, volumes)
        end
    end.

(** The loop of l. 129-148 over the entries of the map in the order
    [order]; every entry is visited once, with the value it had when the
    loop started (an iteration deletes or overwrites its own key only).
    [parseVolumeKey] panics on a key of fewer than three pieces. *)
Fixpoint sweep (now : Z) (vmiVolumeMap : VolumeMap)
    (order : list (string * EphemeralStatus)) (volumes : Ledger)
    : option Ledger :=
  match order with
  | [] => Some volumes
  | (key, volumeStatus) :: rest =>
      '(_, _, name) ← parseVolumeKey key;
      match vmiVolumeMap !! name with
      | None => sweep now vmiVolumeMap rest (delete key volumes)
      | Some _ =>
          let timePassed := Int64.sub now (timestamp volumeStatus) in
          let timeThreshold := 2 in
          if timeThreshold <? timePassed
          then sweep now vmiVolumeMap rest (<[key := confirm volumeStatus]> volumes)
          else sweep now vmiVolumeMap rest volumes
      end
  end.

(** [UpdateEphemeralVolumeCount] (l. 78), with the map iterated in the
    order [order volumes'] where [volumes'] is the map after the first
    loop.  A nil pointer is the argument [None]: the call returns at
    l. 84 and leaves the map as it is.  With both objects set, l. 87
    dereferences [vm.Spec.Template]: a nil pointer there panics. *)
Definition UpdateEphemeralVolumeCountIn
    (order : Ledger → list (string * EphemeralStatus)) (now : Z)
    (vmi : option VirtualMachineInstance) (vm : option VirtualMachine)
    (volumes : Ledger) : option Ledger :=
  match vmi, vm with
  | Some vmi, Some vm =>
      templateVolumes ← vmTemplate vm;
      let vmVolumeMap := indexVolumes templateVolumes in
      let '(vmiVolumeMap, volumes) :=
        foldl (trackVolume now vmi vmVolumeMap) (∅, volumes) (vmiVolumes vmi) in
      sweep now vmiVolumeMap (order volumes) volumes
  | _, _ => Some volumes
  end.

(** Go leaves the iteration order of a map unspecified: [order] may be
    any enumeration of the entries. *)
Definition rangeOrder (order : Ledger → list (string * EphemeralStatus)) : Prop :=
  ∀ volumes, order volumes ≡ₚ map_to_list volumes.

(** [UpdateEphemeralVolumeCount] with the enumeration [map_to_list]. *)
Definition UpdateEphemeralVolumeCount :=
  UpdateEphemeralVolumeCountIn map_to_list.

(** A reconciliation pass: the arguments of one call. *)
Record Observation : Type := mkObservation {
  obsNow : Z;
  obsVmi : option VirtualMachineInstance;
  obsVm : option VirtualMachine
}.

Definition observe (o : Observation) (volumes : Ledger) : option Ledger :=
  UpdateEphemeralVolumeCount (obsNow o) (obsVmi o) (obsVm o) volumes.

(** A sequence of calls, oldest first. *)
Fixpoint observeAll (os : list Observation) (volumes : Ledger) : option Ledger :=
  match os with
  | [] => Some volumes
  | o :: os => volumes ← observe o volumes; observeAll os volumes
  end.

(** ** 64-bit floating point *)

Module Float64.

(** IEEE 754 binary64, on the Standard Library's specification of
    floating-point numbers. *)
Definition prec : Z := 53.
Definition emax : Z := 1024.

(** The conversion [float64(x)] of an [int64]: the nearest binary64
    number, ties to even. *)
Definition of_int64 (x : Z) : spec_float :=
  binary_normalize prec emax x 0 false.

(** The number a float denotes, when that number is an integer. *)
Definition to_Z (f : spec_float) : option Z :=
  match f with
  | S754_zero _ => Some 0
  | S754_finite s m e =>
      if 0 <=? e then Some (cond_Zopp s (Z.pos m * 2 ^ e))
      else if Z.pos m mod 2 ^ (- e) =? 0
           then Some (cond_Zopp s (Z.pos m / 2 ^ (- e)))
           else None
  | _ => None
  end.

End Float64.

Global Arguments Float64.of_int64 : simpl never.

Abbreviation float64 := spec_float.

(** ** The read path: [EphemeralVolumeMetricsCallback] *)

(** The two metrics of the file (l. 57-71), by their names. *)
Inductive Metric : Type :=
  | vmiLauncherMemoryOverhead
  | vmiEphemeralHotplugVolumeTotal.

Definition metricName (m : Metric) : string :=
  match m with
  | vmiLauncherMemoryOverhead => "kubevirt_vmi_launcher_memory_overhead_bytes"
  | vmiEphemeralHotplugVolumeTotal => "kubevirt_vmi_ephemeral_hotplug_volume_total"
  end.

(** [operatormetrics.CollectorResult]. *)
Record CollectorResult : Type := mkResult {
  resMetric : Metric;
  resLabels : list string;
  resValue : float64
}.

(** The loop of l. 164-175 over the entries of the map in the order
    [order], appending to [results]. *)
Fixpoint collect (order : list (string * EphemeralStatus))
    (results : list CollectorResult) : option (list CollectorResult) :=
  match order with
  | [] => Some results
  | (key, volumeStatus) :: rest =>
      (* only report confirmed volumes *)
      if negb (confirmed volumeStatus) then collect rest results
      else
        '(namespace, name, volume) ← parseVolumeKey key;
        collect rest
          (results ++ [mkResult vmiEphemeralHotplugVolumeTotal
                         [namespace; name; volume] (Float64.of_int64 1)])
  end.

(** [EphemeralVolumeMetricsCallback] (l. 158), as a step on the tracker
    map: the results and the map it leaves. *)
Definition EphemeralVolumeMetricsCallbackIn
    (order : Ledger → list (string * EphemeralStatus)) (volumes : Ledger)
    : option (list CollectorResult * Ledger) :=
  results ← collect (order volumes) [];
  Some (results, volumes).

Definition EphemeralVolumeMetricsCallback :=
  EphemeralVolumeMetricsCallbackIn map_to_list.

(** ** The launcher memory-overhead gauge *)

(** An error of the library's [Write]. *)
Inductive error : Type :=
  | WriteError.

Module GaugeVec.

(** The gauge vector behind [vmiLauncherMemoryOverhead]
    ([operatormetrics.NewGaugeVec]) belongs to the metrics library and
    is not part of the file.  It holds one child, a [float64], per tuple
    of label values.  [WithLabelValues] gives the child of the label
    values and creates it, with the value 0, when there is none; [Set]
    (here [Set_]) overwrites the value of that child; [Write] copies the
    value of a child out, and has no failure for a gauge. *)
Abbreviation t := (gmap (list string) float64).

Definition empty : t := ∅.

(** The value [+0] of a fresh child. *)
Definition zero : float64 := S754_zero false.

Definition WithLabelValues (labels : list string) (g : t) : float64 * t :=
  match g !! labels with
  | Some child => (child, g)
  | None => (zero, <[labels := zero]> g)
  end.

Definition Set_ (labels : list string) (value : float64) (g : t) : t :=
  <[labels := value]> g.

Definition Write (child : float64) : float64 + error := inl child.

End GaugeVec.

(** [SetVmiLaucherMemoryOverhead] (l. 185).  [memoryOverhead] is the
    [int64] that [memoryOverhead.Value()] returns. *)
Definition SetVmiLaucherMemoryOverhead (vmi : VirtualMachineInstance)
    (memoryOverhead : Z) (g : GaugeVec.t) : GaugeVec.t :=
  let '(_, g) := GaugeVec.WithLabelValues [vmiNamespace vmi; vmiName vmi] g in
  GaugeVec.Set_ [vmiNamespace vmi; vmiName vmi]
    (Float64.of_int64 memoryOverhead) g.

(** [GetVmiLaucherMemoryOverhead] (l. 191): the value and the error. *)
Definition GetVmiLaucherMemoryOverhead (vmi : VirtualMachineInstance)
    (g : GaugeVec.t) : float64 * option error :=
  let '(child, _) := GaugeVec.WithLabelValues [vmiNamespace vmi; vmiName vmi] g in
  match GaugeVec.Write child with
  | inr err => (Float64.of_int64 (-1), Some err)
  | inl value => (value, None)
  end.

(** The label values of the gauge child of an instance. *)
Definition labelsOf (vmi : VirtualMachineInstance) : list string :=
  [vmiNamespace vmi; vmiName vmi].

(** A sequence of [SetVmiLaucherMemoryOverhead] calls, oldest first. *)
Definition setAll (sets : list (VirtualMachineInstance * Z)) (g : GaugeVec.t)
    : GaugeVec.t :=
  foldl (λ g set, SetVmiLaucherMemoryOverhead set.1 set.2 g) g sets.

(** The value of the last call of [sets] for the label values [labels]. *)
Definition lastSet (labels : list string)
    (sets : list (VirtualMachineInstance * Z)) : option Z :=
  last (omap (λ set, if decide (labelsOf set.1 = labels) then Some set.2 else None)
          sets).

(** ** Views of the two loops, one key at a time *)

(** No ["/"] in a name. *)
Definition slashFree (s : string) : Prop := Strings.contains slash s = false.

(** The volume [volume] of [vmi] is hotplug-eligible and its tracker key
    is [key]. *)
Definition touches (vmi : VirtualMachineInstance) (key : string)
    (volume : Volume) : bool :=
  isHotplugVolume volume
  && bool_decide (trackerKey (vmiNamespace vmi) (vmiName vmi) (volumeName volume) = key).

Definition declaredIn (vmVolumeMap : VolumeMap) (volume : Volume) : bool :=
  bool_decide (is_Some (vmVolumeMap !! volumeName volume)).

(** First detection (l. 103-110) on the record of one key. *)
Definition create (now : Z) (o : option EphemeralStatus) : option EphemeralStatus :=
  match o with
  | None => Some (mkStatus now false)
  | Some st => Some st
  end.

(** Reclassification in the grace window (l. 113-123) on the record of
    one key. *)
Definition graceDrop (now : Z) (o : option EphemeralStatus) : option EphemeralStatus :=
  match o with
  | Some st => if Int64.sub now (timestamp st) <=? 60 then None else Some st
  | None => None
  end.

(** What one iteration of the first loop does to the record of [key]. *)
Definition trackKey (now : Z) (vmi : VirtualMachineInstance)
    (vmVolumeMap : VolumeMap) (key : string) (o : option EphemeralStatus)
    (volume : Volume) : option EphemeralStatus :=
  if touches vmi key volume
  then if declaredIn vmVolumeMap volume then graceDrop now o else create now o
  else o.

(** What the iteration of the second loop on [key] does to its record. *)
Definition sweepEntry (now : Z) (vmiVolumeMap : VolumeMap) (key : string)
    (volumeStatus : EphemeralStatus) : option EphemeralStatus :=
  '(_, _, name) ← parseVolumeKey key;
  match vmiVolumeMap !! name with
  | None => None
  | Some _ =>
      Some (if 2 <? Int64.sub now (timestamp volumeStatus)
            then confirm volumeStatus else volumeStatus)
  end.

(** The state after the first loop of a call with both objects set:
    the live hotplug volumes by name, and the tracker map. *)
Definition firstLoop (now : Z) (vmi : VirtualMachineInstance)
    (vm : VirtualMachine) (volumes : Ledger) : VolumeMap * Ledger :=
  foldl (trackVolume now vmi (indexVolumes (vmTemplateVolumes vm)))
    (∅, volumes) (vmiVolumes vmi).

(** Every key of the map has at least three pieces. *)
Definition wfLedger (volumes : Ledger) : Prop :=
  map_Forall (λ key _, is_Some (parseVolumeKey key)) volumes.

(** The names of the hotplug-eligible volumes of the live instance, and
    the names the desired template declares. *)
Definition hotplugIn (vmi : VirtualMachineInstance) (name : string) : Prop :=
  ∃ volume, volume ∈ vmiVolumes vmi ∧ isHotplugVolume volume = true
            ∧ volumeName volume = name.

Definition declaredBy (vm : VirtualMachine) (name : string) : Prop :=
  ∃ volume, volume ∈ vmTemplateVolumes vm ∧ volumeName volume = name.

(** The call [o] sees a hotplug-eligible volume with tracker key [key]
    that the desired template does not declare. *)
Definition detects (o : Observation) (key : string) : Prop :=
  ∃ vmi vm name,
    obsVmi o = Some vmi ∧ obsVm o = Some vm ∧
    hotplugIn vmi name ∧ ¬ declaredBy vm name ∧
    trackerKey (vmiNamespace vmi) (vmiName vmi) name = key.

(** The call [o] is for the instance [namespace]/[name] and sees the
    volume [volume] hotplug-eligible in the live instance and not
    declared by the desired template. *)
Definition seesUndeclared (namespace name volume : string) (o : Observation) : Prop :=
  ∃ vmi vm,
    obsVmi o = Some vmi ∧ obsVm o = Some vm ∧
    vmiNamespace vmi = namespace ∧ vmiName vmi = name ∧
    hotplugIn vmi volume ∧ ¬ declaredBy vm volume.

(** The call [o] does not pass, with a live instance, a machine whose
    [Spec.Template] is nil. *)
Definition templateSet (o : Observation) : Prop :=
  ∀ vmi vm, obsVmi o = Some vmi → obsVm o = Some vm → is_Some (vmTemplate vm).

(** Every key of the map has exactly three pieces. *)
Definition canonicalLedger (volumes : Ledger) : Prop :=
  map_Forall (λ key _, length (Strings.Split slash key) = 3%nat) volumes.

(** The names that the call [o] builds keys from have no ["/"]. *)
Definition slashFreeObservation (o : Observation) : Prop :=
  ∀ vmi, obsVmi o = Some vmi →
    slashFree (vmiNamespace vmi) ∧ slashFree (vmiName vmi) ∧
    ∀ name, hotplugIn vmi name → slashFree name.

(** Some run of the collector callback on [volumes] returns a sample
    with the label values [labels]. *)
Definition emits (volumes : Ledger) (labels : list string) : Prop :=
  ∃ order results volumes',
    rangeOrder order ∧
    EphemeralVolumeMetricsCallbackIn order volumes = Some (results, volumes') ∧
    ∃ r, r ∈ results ∧ resLabels r = labels.

(** The states of the tracker: the empty map of l. 73 and what calls of
    [UpdateEphemeralVolumeCount] make of it, whatever the iteration
    order. *)
Inductive reachable : Ledger → Prop :=
  | reachable_init : reachable ∅
  | reachable_step order now vmi vm volumes volumes' :
      reachable volumes →
      rangeOrder order →
      UpdateEphemeralVolumeCountIn order now vmi vm volumes = Some volumes' →
      reachable volumes'.

(** The sample of the record of [key]: the first three pieces of the key
    as label values, and the value 1. *)
Definition sample (key : string) : CollectorResult :=
  mkResult vmiEphemeralHotplugVolumeTotal (take 3 (Strings.Split slash key))
    (Float64.of_int64 1).

(** The confirmed records. *)
Definition confirmedRecords (volumes : Ledger) : Ledger :=
  filter (λ entry, confirmed entry.2 = true) volumes.

(** ** Scenarios *)

Module Scenario.

(** A hotplug-eligible volume backed by a persistent volume claim. *)
Definition hotplug (name : string) : Volume :=
  mkVolume name (mkVolumeSource (Some (mkPVCSource true)) None).

(** Instance [a] with the hotplug volume [v]; instance [b] without
    volumes; a template that declares nothing and one that declares
    [v]. *)
Definition vmiA : VirtualMachineInstance := mkVMI "ns" "a" [hotplug "v"].
Definition vmiB : VirtualMachineInstance := mkVMI "ns" "b" [].
Definition vmNone : VirtualMachine := mkVM (Some []).
Definition vmV : VirtualMachine := mkVM (Some [hotplug "v"]).

(** The tracker after [v] of [a] was first detected at time [0]. *)
Definition tracked : Ledger := {[ "ns/a/v" := mkStatus 0 false ]}.

Definition trackedConfirmed : Ledger := {[ "ns/a/v" := mkStatus 0 true ]}.

(** Instance [a] with the two hotplug volumes [v] and [w]; the tracker
    with [v] confirmed and [w] not yet, and with both confirmed. *)
Definition vmiVW : VirtualMachineInstance :=
  mkVMI "ns" "a" [hotplug "v"; hotplug "w"].

Definition mixed : Ledger :=
  {[ "ns/a/v" := mkStatus 0 true; "ns/a/w" := mkStatus 0 false ]}.

Definition bothConfirmed : Ledger :=
  {[ "ns/a/v" := mkStatus 0 true; "ns/a/w" := mkStatus 0 true ]}.

(** A machine whose [Spec.Template] is nil. *)
Definition vmNoTemplate : VirtualMachine := mkVM None.

End Scenario.

(** * Properties *)

(** ** Splitting and joining *)

Section split.

Local Open Scope string_scope.

Lemma Split_nonempty sep s : Strings.Split sep s ≠ [].
Proof.
  destruct s as [|c s]; simpl; [done|].
  destruct (Ascii.eqb c sep); [done|].
  by destruct (Strings.Split sep s).
Qed.

Lemma Split_free sep s :
  Strings.contains sep s = false → Strings.Split sep s = [s].
Proof.
  induction s as [|c s IH]; simpl; [done|].
  destruct (Ascii.eqb c sep); simpl; [done|].
  intros H. by rewrite IH.
Qed.

(** A name without the separator, then the separator: the name is the
    first piece. *)
Lemma Split_app_free sep s t :
  Strings.contains sep s = false →
  Strings.Split sep (s +:+ String sep t) = s :: Strings.Split sep t.
Proof.
  induction s as [|c s IH]; simpl.
  - intros _. change ("" +:+ String sep t) with (String sep t).
    simpl. by rewrite Ascii.eqb_refl.
  - destruct (Ascii.eqb c sep) eqn:E; simpl; [done|].
    intros H.
    change (String c s +:+ String sep t) with (String c (s +:+ String sep t)).
    simpl. by rewrite (IH H).
Qed.

Lemma Split_length_app sep s t :
  length (Strings.Split sep (s +:+ String sep t)) =
  (length (Strings.Split sep s) + length (Strings.Split sep t))%nat.
Proof.
  induction s as [|c s IH].
  - change ("" +:+ String sep t) with (String sep t).
    simpl. by rewrite Ascii.eqb_refl.
  - change (String c s +:+ String sep t) with (String c (s +:+ String sep t)).
    simpl. destruct (Ascii.eqb c sep); simpl; [by rewrite IH|].
    pose proof (Split_nonempty sep s) as Hs.
    pose proof (Split_nonempty sep (s +:+ String sep t)) as Hst.
    destruct (Strings.Split sep s), (Strings.Split sep (s +:+ String sep t));
      done.
Qed.

Lemma Split_length_pos sep s : (1 ≤ length (Strings.Split sep s))%nat.
Proof.
  pose proof (Split_nonempty sep s).
  destruct (Strings.Split sep s); [done | simpl; lia].
Qed.

Lemma Join_cons_char sep c piece pieces :
  Strings.Join sep (String c piece :: pieces)
  = String c (Strings.Join sep (piece :: pieces)).
Proof. by destruct pieces. Qed.

(** Joining the pieces gives the string back. *)
Lemma Join_Split sep s : Strings.Join sep (Strings.Split sep s) = s.
Proof.
  induction s as [|c s IH]; [done|]. simpl.
  destruct (Ascii.eqb_spec c sep) as [->|Hne].
  - pose proof (Split_nonempty sep s) as Hs.
    destruct (Strings.Split sep s) as [|p ps] eqn:E; [done|].
    change (Strings.Join sep ("" :: p :: ps))
      with (String sep (Strings.Join sep (p :: ps))).
    by rewrite IH.
  - pose proof (Split_nonempty sep s) as Hs.
    destruct (Strings.Split sep s) as [|p ps] eqn:E; [done|].
    by rewrite Join_cons_char, IH.
Qed.

End split.

(** ** Tracker keys *)

Lemma trackerKey_inj ns name v1 v2 :
  trackerKey ns name v1 = trackerKey ns name v2 → v1 = v2.
Proof.
  unfold trackerKey. intros H.
  by repeat (apply (inj (String.app _)) in H).
Qed.

Lemma trackerKey_pieces ns name vol :
  (3 ≤ length (Strings.Split slash (trackerKey ns name vol)))%nat.
Proof.
  unfold trackerKey.
  change ("/" +:+ name +:+ "/" +:+ vol)
    with (String slash (name +:+ String slash vol)).
  rewrite !Split_length_app.
  pose proof (Split_length_pos slash ns).
  pose proof (Split_length_pos slash name).
  pose proof (Split_length_pos slash vol). lia.
Qed.

Lemma parseVolumeKey_is_Some key :
  is_Some (parseVolumeKey key) ↔ (3 ≤ length (Strings.Split slash key))%nat.
Proof.
  unfold parseVolumeKey.
  destruct (Strings.Split slash key) as [|p0 [|p1 [|p2 rest]]]; simpl;
    split; intros H; try lia; try (by destruct H); eauto.
Qed.

Lemma trackerKey_parses ns name vol :
  is_Some (parseVolumeKey (trackerKey ns name vol)).
Proof. apply parseVolumeKey_is_Some, trackerKey_pieces. Qed.

Lemma Split_trackerKey ns name vol :
  slashFree ns → slashFree name → slashFree vol →
  Strings.Split slash (trackerKey ns name vol) = [ns; name; vol].
Proof.
  unfold slashFree, trackerKey. intros Hns Hname Hvol.
  change ("/" +:+ name +:+ "/" +:+ vol)
    with (String slash (name +:+ String slash vol)).
  rewrite (Split_app_free _ _ _ Hns), (Split_app_free _ _ _ Hname).
  by rewrite (Split_free _ _ Hvol).
Qed.

(** C9. For namespace, instance name and volume name without ["/"], the
    key [namespace + "/" + name + "/" + volumeName] has exactly three
    pieces and [parseVolumeKey] gives back the three components. *)
Theorem parseVolumeKey_trackerKey ns name vol :
  slashFree ns → slashFree name → slashFree vol →
  length (Strings.Split slash (trackerKey ns name vol)) = 3%nat ∧
  parseVolumeKey (trackerKey ns name vol) = Some (ns, name, vol).
Proof.
  intros Hns Hname Hvol. unfold parseVolumeKey.
  by rewrite (Split_trackerKey _ _ _ Hns Hname Hvol).
Qed.

Lemma parseVolumeKey_trackerKey_witness :
  slashFree "default" ∧ slashFree "vmi-1" ∧ slashFree "disk0" ∧
  length (Strings.Split slash (trackerKey "default" "vmi-1" "disk0")) = 3%nat ∧
  parseVolumeKey (trackerKey "default" "vmi-1" "disk0")
  = Some ("default", "vmi-1", "disk0").
Proof.
  split; [reflexivity|]. split; [reflexivity|]. split; [reflexivity|].
  apply (parseVolumeKey_trackerKey "default" "vmi-1" "disk0"); reflexivity.
Defined.

(** C10, as the code has it. A key of fewer than three pieces makes
    [parseVolumeKey] panic; a key of three pieces or more is accepted,
    and the pieces after the third are dropped without a failure. *)
Theorem parseVolumeKey_pieces key :
  ((length (Strings.Split slash key) < 3)%nat → parseVolumeKey key = None) ∧
  ((3 ≤ length (Strings.Split slash key))%nat →
   ∃ p0 p1 p2, take 3 (Strings.Split slash key) = [p0; p1; p2] ∧
               parseVolumeKey key = Some (p0, p1, p2)).
Proof.
  unfold parseVolumeKey.
  destruct (Strings.Split slash key) as [|p0 [|p1 [|p2 rest]]]; simpl;
    (split; intros H; [done || lia | try lia]).
  by exists p0, p1, p2.
Qed.

Lemma parseVolumeKey_pieces_witness :
  parseVolumeKey "ns/vmi" = None ∧
  ∃ p0 p1 p2, take 3 (Strings.Split slash "a/b/c/d") = [p0; p1; p2] ∧
              parseVolumeKey "a/b/c/d" = Some (p0, p1, p2).
Proof.
  split.
  - apply (proj1 (parseVolumeKey_pieces "ns/vmi")). simpl. lia.
  - apply (proj2 (parseVolumeKey_pieces "a/b/c/d")). simpl. lia.
Defined.

(** C10, as stated, fails: the key ["a/b/c/d"] has four pieces and is
    decomposed into its first three without any failure. *)
Lemma parseVolumeKey_four_pieces :
  length (Strings.Split slash "a/b/c/d") = 4%nat ∧
  parseVolumeKey "a/b/c/d" = Some ("a", "b", "c").
Proof. split; reflexivity. Qed.

(** ** 64-bit subtraction *)

Lemma Int64_sub_exact a b :
  Int64.in_range (a - b) → Int64.sub a b = a - b.
Proof.
  unfold Int64.in_range, Int64.min_int, Int64.max_int, Int64.sub, Int64.wrap.
  intros H. rewrite Z.mod_small; lia.
Qed.

(** ** The first loop, one key at a time *)

Section first_loop.

Variables (now : Z) (vmi : VirtualMachineInstance) (vmVolumeMap : VolumeMap).

Lemma trackVolume_lookup acc volume key :
  (trackVolume now vmi vmVolumeMap acc volume).2 !! key
  = trackKey now vmi vmVolumeMap key (acc.2 !! key) volume.
Proof.
  destruct acc as [m volumes].
  unfold trackVolume, trackKey, touches, declaredIn, create, graceDrop.
  destruct (isHotplugVolume volume); simpl; [|done].
  set (k := trackerKey _ _ _).
  destruct (decide (k = key)) as [->|Hne].
  - rewrite bool_decide_eq_true_2 by done.
    destruct (vmVolumeMap !! volumeName volume) as [v|] eqn:Ev.
    + rewrite bool_decide_eq_true_2 by eauto.
      destruct (volumes !! key) as [st|] eqn:Est; simpl; [|done].
      destruct (_ <=? 60); simpl; [by rewrite lookup_delete_eq | done].
    + rewrite bool_decide_eq_false_2 by (by intros [? ?]).
      destruct (volumes !! key) as [st|] eqn:Est; simpl; [done|].
      by rewrite lookup_insert_eq.
  - rewrite bool_decide_eq_false_2 by done.
    destruct (vmVolumeMap !! volumeName volume);
      destruct (volumes !! k); simpl; try done.
    + destruct (_ <=? 60); simpl; [by rewrite lookup_delete_ne | done].
    + by rewrite lookup_insert_ne.
Qed.

Lemma foldl_trackVolume_lookup volumes acc key :
  (foldl (trackVolume now vmi vmVolumeMap) acc volumes).2 !! key
  = foldl (trackKey now vmi vmVolumeMap key) (acc.2 !! key) volumes.
Proof.
  revert acc. induction volumes as [|v l IH]; intros acc; simpl; [done|].
  by rewrite IH, trackVolume_lookup.
Qed.

(** The map of live hotplug volumes that the first loop builds. *)
Lemma trackVolume_fst acc volume :
  (trackVolume now vmi vmVolumeMap acc volume).1
  = if isHotplugVolume volume then <[volumeName volume := volume]> acc.1
    else acc.1.
Proof.
  destruct acc as [m volumes]. unfold trackVolume.
  destruct (isHotplugVolume volume); simpl; [|done].
  destruct (vmVolumeMap !! _); destruct (volumes !! _); simpl; try done.
  by destruct (_ <=? 60).
Qed.

Lemma foldl_trackVolume_fst volumes acc name :
  is_Some ((foldl (trackVolume now vmi vmVolumeMap) acc volumes).1 !! name)
  ↔ is_Some (acc.1 !! name)
    ∨ ∃ volume, volume ∈ volumes ∧ isHotplugVolume volume = true
                ∧ volumeName volume = name.
Proof.
  revert acc. induction volumes as [|v l IH]; intros acc; simpl.
  - split; [by left | intros [H|(? & H & _)]; [done | by inversion H]].
  - rewrite IH, trackVolume_fst. split.
    + intros [H|(u & Hu & Hh & Hn)].
      * destruct (isHotplugVolume v) eqn:Ev; [|by left].
        destruct (decide (volumeName v = name)) as [<-|Hne].
        -- right. exists v. split; [left|done].
        -- left. by rewrite lookup_insert_ne in H.
      * right. exists u. split; [by right|done].
    + intros [H|(u & Hu & Hh & Hn)].
      * left. destruct (isHotplugVolume v); [|done].
        destruct (decide (volumeName v = name)) as [<-|Hne].
        -- rewrite lookup_insert_eq. eauto.
        -- by rewrite lookup_insert_ne.
      * apply elem_of_cons in Hu as [->|Hu].
        -- left. rewrite Hh, <- Hn, lookup_insert_eq. eauto.
        -- right. eauto.
Qed.

(** Two volumes of the instance with the same tracker key have the
    same name, so the template declares both or none. *)
Lemma touches_declaredIn key u v :
  touches vmi key u = true → touches vmi key v = true →
  declaredIn vmVolumeMap u = declaredIn vmVolumeMap v.
Proof.
  unfold touches, declaredIn.
  intros [_ Hu%bool_decide_eq_true]%andb_true_iff
         [_ Hv%bool_decide_eq_true]%andb_true_iff.
  rewrite <- Hv in Hu. by rewrite (trackerKey_inj _ _ _ _ Hu).
Qed.

Lemma create_idemp o : create now (create now o) = create now o.
Proof. by destruct o. Qed.

Lemma graceDrop_idemp o : graceDrop now (graceDrop now o) = graceDrop now o.
Proof.
  destruct o as [st|]; simpl; [|done].
  destruct (_ <=? 60) eqn:E; simpl; [done | by rewrite E].
Qed.

Lemma foldl_trackKey_undeclared key volumes o :
  (∀ u, u ∈ volumes → touches vmi key u = true →
        declaredIn vmVolumeMap u = false) →
  foldl (trackKey now vmi vmVolumeMap key) o volumes
  = if existsb (touches vmi key) volumes then create now o else o.
Proof.
  revert o. induction volumes as [|v l IH]; intros o H; simpl; [done|].
  rewrite IH by (intros u Hu; apply H; by apply list_elem_of_further).
  unfold trackKey.
  destruct (touches vmi key v) eqn:Ev; simpl; [|done].
  rewrite (H v) by (done || apply list_elem_of_here).
  destruct (existsb _ l); by rewrite ?create_idemp.
Qed.

Lemma foldl_trackKey_declared key volumes o :
  (∀ u, u ∈ volumes → touches vmi key u = true →
        declaredIn vmVolumeMap u = true) →
  foldl (trackKey now vmi vmVolumeMap key) o volumes
  = if existsb (touches vmi key) volumes then graceDrop now o else o.
Proof.
  revert o. induction volumes as [|v l IH]; intros o H; simpl; [done|].
  rewrite IH by (intros u Hu; apply H; by apply list_elem_of_further).
  unfold trackKey.
  destruct (touches vmi key v) eqn:Ev; simpl; [|done].
  rewrite (H v) by (done || apply list_elem_of_here).
  destruct (existsb _ l); by rewrite ?graceDrop_idemp.
Qed.

(** The first loop on the record of one key: nothing when no live
    hotplug volume has the key, first detection when the template
    does not declare the volume, the grace-window test when it does. *)
Lemma foldl_trackKey key volumes o :
  foldl (trackKey now vmi vmVolumeMap key) o volumes
  = if existsb (touches vmi key) volumes
    then if existsb (λ u, touches vmi key u && declaredIn vmVolumeMap u) volumes
         then graceDrop now o else create now o
    else o.
Proof.
  destruct (existsb (λ u, touches vmi key u && declaredIn vmVolumeMap u) volumes)
    eqn:E.
  - apply existsb_exists in E as (v & Hv & [Ht Hd]%andb_true_iff).
    apply foldl_trackKey_declared. intros u _ Hu.
    by rewrite (touches_declaredIn key u v).
  - apply foldl_trackKey_undeclared. intros u Hu Ht.
    destruct (declaredIn vmVolumeMap u) eqn:Ed; [|done].
    rewrite <- E. symmetry. apply existsb_exists. exists u.
    rewrite Ht, Ed. split; [by apply list_elem_of_In | done].
Qed.

End first_loop.

(** ** The second loop *)

Section second_loop.

Variables (now : Z) (vmiVolumeMap : VolumeMap).

(** A key of fewer than three pieces anywhere in the iteration makes
    the loop panic. *)
Lemma sweep_panic order volumes key st :
  (key, st) ∈ order → parseVolumeKey key = None →
  sweep now vmiVolumeMap order volumes = None.
Proof.
  intros Hin Hkey. revert volumes.
  induction order as [|[k s] rest IH]; intros volumes; [by inversion Hin|].
  simpl. apply elem_of_cons in Hin as [[= <- <-]|Hin].
  - by rewrite Hkey.
  - destruct (parseVolumeKey k) as [[[? ?] name]|]; simpl; [|done].
    destruct (vmiVolumeMap !! name); [destruct (2 <? _)|]; by apply IH.
Qed.

Lemma sweep_lookup order (volumes : Ledger) :
  NoDup order.*1 →
  (∀ key st, (key, st) ∈ order →
             is_Some (parseVolumeKey key) ∧ volumes !! key = Some st) →
  ∃ volumes', sweep now vmiVolumeMap order volumes = Some volumes' ∧
    ∀ key, volumes' !! key
           = match (list_to_map order : Ledger) !! key with
             | Some st => sweepEntry now vmiVolumeMap key st
             | None => volumes !! key
             end.
Proof.
  revert volumes.
  induction order as [|[k s] rest IH]; intros volumes Hdup Hin.
  { exists volumes. split; [done|]. intros key. simpl. by rewrite lookup_empty. }
  apply NoDup_cons in Hdup as [Hk Hdup].
  destruct (Hin k s) as [[[[p0 p1] name] Hp] Hks]; [apply list_elem_of_here|].
  assert (Hrest : ∀ volumes0 : Ledger,
             (∀ key, key ≠ k → volumes0 !! key = volumes !! key) →
             ∀ key st, (key, st) ∈ rest →
               is_Some (parseVolumeKey key) ∧ volumes0 !! key = Some st).
  { intros volumes0 H0 key st Hkey.
    destruct (Hin key st) as [? ?]; [by apply list_elem_of_further|].
    split; [done|]. rewrite H0; [done|]. intros ->.
    apply Hk. apply list_elem_of_fmap. by exists (k, st). }
  assert (Hnone : (list_to_map rest : Ledger) !! k = None)
    by by apply not_elem_of_list_to_map_1.
  simpl. rewrite Hp. simpl.
  destruct (vmiVolumeMap !! name) as [v|] eqn:Ev;
    [destruct (2 <? Int64.sub now (timestamp s)) eqn:Et|].
  - destruct (IH (<[k := confirm s]> volumes) Hdup) as (volumes' & Hs & Hl).
    { apply Hrest. intros key Hne. by rewrite lookup_insert_ne. }
    exists volumes'. split; [done|]. intros key. rewrite Hl.
    destruct (decide (key = k)) as [->|Hne].
    + rewrite Hnone, !lookup_insert_eq.
      unfold sweepEntry. rewrite Hp. simpl. by rewrite Ev, Et.
    + by rewrite !(lookup_insert_ne _ k key).
  - destruct (IH volumes Hdup) as (volumes' & Hs & Hl).
    { by apply Hrest. }
    exists volumes'. split; [done|]. intros key. rewrite Hl.
    destruct (decide (key = k)) as [->|Hne].
    + rewrite Hnone, lookup_insert_eq, Hks.
      unfold sweepEntry. rewrite Hp. simpl. by rewrite Ev, Et.
    + by rewrite (lookup_insert_ne _ k key).
  - destruct (IH (delete k volumes) Hdup) as (volumes' & Hs & Hl).
    { apply Hrest. intros key Hne. by rewrite lookup_delete_ne. }
    exists volumes'. split; [done|]. intros key. rewrite Hl.
    destruct (decide (key = k)) as [->|Hne].
    + rewrite Hnone, lookup_insert_eq, lookup_delete_eq.
      unfold sweepEntry. rewrite Hp. simpl. by rewrite Ev.
    + by rewrite (lookup_insert_ne _ k key), (lookup_delete_ne _ k key).
Qed.

(** On a well-formed map the loop ends, whatever the iteration order,
    with every record replaced by what [sweepEntry] makes of it. *)
Lemma sweep_spec order (volumes : Ledger) :
  order ≡ₚ map_to_list volumes → wfLedger volumes →
  sweep now vmiVolumeMap order volumes
  = Some (map_imap (sweepEntry now vmiVolumeMap) volumes).
Proof.
  intros Hperm Hwf.
  destruct (sweep_lookup order volumes) as (volumes' & Hs & Hl).
  - rewrite Hperm. apply NoDup_fst_map_to_list.
  - intros key st Hin. rewrite Hperm in Hin.
    apply elem_of_map_to_list in Hin. split; [|done].
    by apply (Hwf key st).
  - rewrite Hs. f_equal. apply map_eq. intros key.
    rewrite Hl, map_lookup_imap.
    rewrite (list_to_map_proper order (map_to_list volumes)), list_to_map_to_list;
      [|rewrite Hperm; apply NoDup_fst_map_to_list|done].
    by destruct (volumes !! key).
Qed.

Lemma sweep_not_wf order (volumes : Ledger) :
  order ≡ₚ map_to_list volumes → ¬ wfLedger volumes →
  sweep now vmiVolumeMap order volumes = None.
Proof.
  intros Hperm Hwf. apply map_not_Forall in Hwf; [|apply _].
  destruct Hwf as (key & st & Hin & Hp).
  apply (sweep_panic order volumes key st).
  - rewrite Hperm. by apply elem_of_map_to_list.
  - by apply eq_None_not_Some.
Qed.

(** The order of the iteration does not matter. *)
Lemma sweep_order order (volumes : Ledger) :
  order ≡ₚ map_to_list volumes →
  sweep now vmiVolumeMap order volumes
  = sweep now vmiVolumeMap (map_to_list volumes) volumes.
Proof.
  intros Hperm.
  destruct (decide (wfLedger volumes)) as [Hwf|Hwf].
  - by rewrite !sweep_spec.
  - by rewrite !sweep_not_wf.
Qed.

End second_loop.

(** ** One call *)

Lemma indexVolumes_lookup volumes name :
  is_Some (indexVolumes volumes !! name)
  ↔ ∃ volume, volume ∈ volumes ∧ volumeName volume = name.
Proof.
  unfold indexVolumes.
  assert (H : ∀ m : VolumeMap,
    is_Some (foldl (λ m volume, <[volumeName volume := volume]> m) m volumes !! name)
    ↔ is_Some (m !! name) ∨ ∃ volume, volume ∈ volumes ∧ volumeName volume = name).
  { induction volumes as [|v l IH]; intros m; simpl.
    - split; [by left | intros [H|(? & H & _)]; [done | by inversion H]].
    - rewrite IH. split.
      + intros [H|(u & Hu & Hn)].
        * destruct (decide (volumeName v = name)) as [<-|Hne].
          -- right. exists v. split; [apply list_elem_of_here|done].
          -- left. by rewrite lookup_insert_ne in H.
        * right. exists u. split; [by apply list_elem_of_further|done].
      + intros [H|(u & Hu & Hn)].
        * left. destruct (decide (volumeName v = name)) as [<-|Hne].
          -- rewrite lookup_insert_eq. eauto.
          -- by rewrite lookup_insert_ne.
        * apply elem_of_cons in Hu as [->|Hu].
          -- left. rewrite <- Hn, lookup_insert_eq. eauto.
          -- right. eauto. }
  rewrite H, lookup_empty. split; [intros [[? [=]]|?]; done | by right].
Qed.

Section call.

Variables (now : Z) (vmi : VirtualMachineInstance) (vm : VirtualMachine).

Lemma firstLoop_lookup volumes key :
  (firstLoop now vmi vm volumes).2 !! key
  = foldl (trackKey now vmi (indexVolumes (vmTemplateVolumes vm)) key)
      (volumes !! key) (vmiVolumes vmi).
Proof. unfold firstLoop. by rewrite foldl_trackVolume_lookup. Qed.

Lemma firstLoop_hotplug volumes name :
  is_Some ((firstLoop now vmi vm volumes).1 !! name) ↔ hotplugIn vmi name.
Proof.
  unfold firstLoop, hotplugIn. rewrite foldl_trackVolume_fst. simpl.
  rewrite lookup_empty. split; [intros [[? [=]]|?]; done | by right].
Qed.

Lemma declaredIn_declaredBy volume :
  declaredIn (indexVolumes (vmTemplateVolumes vm)) volume = true
  ↔ declaredBy vm (volumeName volume).
Proof.
  unfold declaredIn, declaredBy.
  by rewrite bool_decide_eq_true, indexVolumes_lookup.
Qed.

Lemma UpdateEphemeralVolumeCountIn_unfold order volumes :
  UpdateEphemeralVolumeCountIn order now (Some vmi) (Some vm) volumes
  = match vmTemplate vm with
    | None => None
    | Some _ =>
        sweep now (firstLoop now vmi vm volumes).1
          (order (firstLoop now vmi vm volumes).2)
          (firstLoop now vmi vm volumes).2
    end.
Proof.
  unfold UpdateEphemeralVolumeCountIn, firstLoop, vmTemplateVolumes.
  destruct (vmTemplate vm) as [templateVolumes|]; [|done]. simpl.
  by destruct (foldl _ _ _).
Qed.

(** The first loop keeps the map well formed: the keys it adds are
    built by [trackerKey]. *)
Lemma firstLoop_wf volumes :
  wfLedger volumes → wfLedger (firstLoop now vmi vm volumes).2.
Proof.
  intros Hwf key st. rewrite firstLoop_lookup, foldl_trackKey.
  destruct (existsb (touches vmi key) (vmiVolumes vmi)) eqn:E.
  - intros _. apply existsb_exists in E as (v & _ & Hv).
    apply andb_true_iff in Hv as [_ Hv%bool_decide_eq_true].
    rewrite <- Hv. apply trackerKey_parses.
  - apply Hwf.
Qed.

Lemma sweepEntry_wf m (volumes : Ledger) :
  wfLedger volumes → wfLedger (map_imap (sweepEntry now m) volumes).
Proof.
  intros Hwf key st. rewrite map_lookup_imap.
  destruct (volumes !! key) as [st0|] eqn:E; [|done].
  intros _. by apply (Hwf key st0).
Qed.

End call.

(** A call on a well-formed map returns, with a well-formed map, unless
    it is given a live instance and a machine whose template pointer is
    nil. *)
Lemma UpdateEphemeralVolumeCountIn_total order now vmi vm (volumes : Ledger) :
  rangeOrder order → wfLedger volumes →
  (∀ vmi0 vm0, vmi = Some vmi0 → vm = Some vm0 → is_Some (vmTemplate vm0)) →
  ∃ volumes',
    UpdateEphemeralVolumeCountIn order now vmi vm volumes = Some volumes' ∧
    wfLedger volumes'.
Proof.
  intros Horder Hwf Htmpl. destruct vmi as [vmi|], vm as [vm|];
    try (exists volumes; by split).
  rewrite UpdateEphemeralVolumeCountIn_unfold.
  destruct (Htmpl vmi vm eq_refl eq_refl) as [templateVolumes ->].
  rewrite sweep_spec by (apply Horder || by apply firstLoop_wf).
  eexists. split; [done|]. by apply sweepEntry_wf, firstLoop_wf.
Qed.

(** A call that returns keeps the map well formed. *)
Lemma UpdateEphemeralVolumeCountIn_wf order now vmi vm (volumes volumes' : Ledger) :
  rangeOrder order → wfLedger volumes →
  UpdateEphemeralVolumeCountIn order now vmi vm volumes = Some volumes' →
  wfLedger volumes'.
Proof.
  intros Horder Hwf Hcall.
  destruct (UpdateEphemeralVolumeCountIn_total order now vmi vm volumes)
    as (volumes'' & Hcall' & Hwf'); [done..| |by simplify_eq].
  intros vmi0 vm0 -> ->. rewrite UpdateEphemeralVolumeCountIn_unfold in Hcall.
  by destruct (vmTemplate vm0).
Qed.

(** The iteration order of the map does not change the result of a
    call: what is proved of [UpdateEphemeralVolumeCount] below holds of
    every order. *)
Lemma UpdateEphemeralVolumeCountIn_order order now vmi vm (volumes : Ledger) :
  rangeOrder order →
  UpdateEphemeralVolumeCountIn order now vmi vm volumes
  = UpdateEphemeralVolumeCount now vmi vm volumes.
Proof.
  intros Horder. unfold UpdateEphemeralVolumeCount.
  destruct vmi as [vmi|], vm as [vm|]; try done.
  rewrite !UpdateEphemeralVolumeCountIn_unfold.
  destruct (vmTemplate vm); [by apply sweep_order | done].
Qed.

Lemma rangeOrder_map_to_list : rangeOrder map_to_list.
Proof. by intros volumes. Qed.

Lemma reachable_wf volumes : reachable volumes → wfLedger volumes.
Proof.
  induction 1 as [|order now vmi vm volumes volumes' _ IH Horder Hcall].
  - apply map_Forall_empty.
  - by apply (UpdateEphemeralVolumeCountIn_wf order now vmi vm volumes).
Qed.

(** From a state of the tracker, a call does not panic, unless it is
    given a live instance and a machine whose template pointer is nil. *)
Lemma reachable_total order now vmi vm volumes :
  reachable volumes → rangeOrder order →
  (∀ vmi0 vm0, vmi = Some vmi0 → vm = Some vm0 → is_Some (vmTemplate vm0)) →
  ∃ volumes',
    UpdateEphemeralVolumeCountIn order now vmi vm volumes = Some volumes' ∧
    reachable volumes'.
Proof.
  intros Hreach Horder Htmpl.
  destruct (UpdateEphemeralVolumeCountIn_total order now vmi vm volumes)
    as (volumes' & Hcall & _); [done | by apply reachable_wf | done |].
  exists volumes'. split; [done|]. by eapply reachable_step.
Qed.

(** The record of a key after a call with both objects set: the first
    loop on the record, then the sweep and the confirmation. *)
Lemma UpdateEphemeralVolumeCount_lookup now vmi vm volumes volumes' key :
  UpdateEphemeralVolumeCount now (Some vmi) (Some vm) volumes = Some volumes' →
  volumes' !! key
  = (firstLoop now vmi vm volumes).2 !! key
    ≫= sweepEntry now (firstLoop now vmi vm volumes).1 key.
Proof.
  unfold UpdateEphemeralVolumeCount.
  rewrite UpdateEphemeralVolumeCountIn_unfold. intros Hcall.
  destruct (vmTemplate vm); [|done].
  destruct (decide (wfLedger (firstLoop now vmi vm volumes).2)) as [Hwf|Hwf].
  - rewrite sweep_spec in Hcall by done. injection Hcall as <-.
    apply map_lookup_imap.
  - by rewrite sweep_not_wf in Hcall.
Qed.

(** ** The record of a volume of the instance *)

Section volume_of_instance.

Variables (now : Z) (vmi : VirtualMachineInstance) (vm : VirtualMachine).
Variable name : string.

Hypothesis Hhot : hotplugIn vmi name.

Lemma touches_key :
  existsb (touches vmi (trackerKey (vmiNamespace vmi) (vmiName vmi) name))
    (vmiVolumes vmi) = true.
Proof.
  destruct Hhot as (v & Hv & Hh & Hn). apply existsb_exists.
  exists v. split; [by apply list_elem_of_In|].
  unfold touches. rewrite Hh, Hn. by apply bool_decide_eq_true.
Qed.

Lemma touches_key_name u :
  touches vmi (trackerKey (vmiNamespace vmi) (vmiName vmi) name) u = true →
  volumeName u = name.
Proof.
  unfold touches. intros [_ Hu%bool_decide_eq_true]%andb_true_iff.
  by apply trackerKey_inj in Hu.
Qed.

(** The first loop on the record of an undeclared hotplug volume. *)
Lemma firstLoop_undeclared volumes :
  ¬ declaredBy vm name →
  (firstLoop now vmi vm volumes).2
    !! trackerKey (vmiNamespace vmi) (vmiName vmi) name
  = create now (volumes !! trackerKey (vmiNamespace vmi) (vmiName vmi) name).
Proof.
  intros Hdecl.
  rewrite firstLoop_lookup, foldl_trackKey_undeclared, touches_key; [done|].
  intros u _ Hu. apply not_true_iff_false. intros Hd.
  apply declaredIn_declaredBy in Hd.
  by rewrite (touches_key_name u Hu) in Hd.
Qed.

(** The first loop on the record of a declared hotplug volume. *)
Lemma firstLoop_declared volumes :
  declaredBy vm name →
  (firstLoop now vmi vm volumes).2
    !! trackerKey (vmiNamespace vmi) (vmiName vmi) name
  = graceDrop now (volumes !! trackerKey (vmiNamespace vmi) (vmiName vmi) name).
Proof.
  intros Hdecl.
  rewrite firstLoop_lookup, foldl_trackKey_declared, touches_key; [done|].
  intros u _ Hu. apply declaredIn_declaredBy.
  by rewrite (touches_key_name u Hu).
Qed.

(** The second loop on the record of a live hotplug volume whose names
    have no ["/"]: the record stays, confirmed beyond the threshold. *)
Lemma sweepEntry_live volumes st :
  slashFree (vmiNamespace vmi) → slashFree (vmiName vmi) → slashFree name →
  sweepEntry now (firstLoop now vmi vm volumes).1
    (trackerKey (vmiNamespace vmi) (vmiName vmi) name) st
  = Some (if 2 <? Int64.sub now (timestamp st) then confirm st else st).
Proof.
  intros Hns Hn Hv. unfold sweepEntry, parseVolumeKey.
  rewrite (Split_trackerKey _ _ _ Hns Hn Hv). simpl.
  destruct (proj2 (firstLoop_hotplug now vmi vm volumes name) Hhot) as [v ->].
  done.
Qed.

End volume_of_instance.

(** C2. In a call that runs the algorithm, every record that the second
    loop finds (a record of the map after the first loop) and does not
    sweep (the third piece of its key names a live hotplug volume of the
    instance) is kept with its timestamp, and its [confirmed] flag is
    the old flag or-ed with the test that more than 2 have elapsed: it
    is set beyond the threshold and never cleared. So every record left
    whose elapsed time exceeds 2 is confirmed; and no call, whatever its
    arguments, resets a confirmed flag: a confirmed record is afterwards
    either deleted or the same record. *)
Theorem confirmation_after_threshold order now vmi vm (volumes volumes' : Ledger) :
  rangeOrder order →
  UpdateEphemeralVolumeCountIn order now vmi vm volumes = Some volumes' →
  (∀ vmi0 vm0, vmi = Some vmi0 → vm = Some vm0 →
   ∀ key st p0 p1 name,
     (firstLoop now vmi0 vm0 volumes).2 !! key = Some st →
     parseVolumeKey key = Some (p0, p1, name) → hotplugIn vmi0 name →
     volumes' !! key
     = Some (mkStatus (timestamp st)
               (confirmed st || (2 <? Int64.sub now (timestamp st)))))
  ∧
  (is_Some vmi → is_Some vm →
   ∀ key st, volumes' !! key = Some st →
             2 < Int64.sub now (timestamp st) → confirmed st = true)
  ∧
  (∀ key st, volumes !! key = Some st → confirmed st = true →
             volumes' !! key = None ∨ volumes' !! key = Some st).
Proof.
  intros Horder Hcall.
  rewrite UpdateEphemeralVolumeCountIn_order in Hcall by done.
  split; [|split].
  - intros vmi0 vm0 -> -> key [ts c] p0 p1 name Hst Hp Hhot.
    rewrite (UpdateEphemeralVolumeCount_lookup _ _ _ _ _ key Hcall), Hst.
    simpl. unfold sweepEntry. rewrite Hp. simpl.
    destruct (proj2 (firstLoop_hotplug now vmi0 vm0 volumes name) Hhot)
      as [v ->].
    destruct (2 <? Int64.sub now ts); simpl;
      [by rewrite orb_true_r | by rewrite orb_false_r].
  - intros [vmi0 ->] [vm0 ->] key st Hst Hlt.
    rewrite (UpdateEphemeralVolumeCount_lookup _ _ _ _ _ key Hcall) in Hst.
    destruct (_ !! key) as [st0|]; [|done]. simpl in Hst.
    unfold sweepEntry in Hst.
    destruct (parseVolumeKey key) as [[[? ?] n]|]; [|done]. simpl in Hst.
    destruct (_ !! n); [|done].
    destruct (2 <? Int64.sub now (timestamp st0)) eqn:E;
      injection Hst as <-; [done|].
    apply Z.ltb_ge in E. lia.
  - intros key [ts c] Hst Hc. simpl in Hc. subst c.
    destruct vmi as [vmi0|], vm as [vm0|];
      try (right; by injection Hcall as <-).
    rewrite (UpdateEphemeralVolumeCount_lookup _ _ _ _ _ key Hcall).
    rewrite firstLoop_lookup, foldl_trackKey, Hst.
    assert (Hsweep : ∀ m, sweepEntry now m key (mkStatus ts true) = None
                          ∨ sweepEntry now m key (mkStatus ts true)
                            = Some (mkStatus ts true)).
    { intros m. unfold sweepEntry.
      destruct (parseVolumeKey key) as [[[? ?] n]|]; [|by left]. simpl.
      destruct (m !! n); [|by left]. right. by destruct (2 <? _). }
    destruct (existsb (touches vmi0 key) _); [|apply Hsweep].
    destruct (existsb _ _); simpl; [|apply Hsweep].
    destruct (_ <=? 60); [by left | apply Hsweep].
Qed.

Lemma confirmation_after_threshold_witness :
  ∃ volumes',
    UpdateEphemeralVolumeCount 3 (Some Scenario.vmiVW) (Some Scenario.vmNone)
      Scenario.mixed = Some volumes' ∧
    volumes' !! "ns/a/w" = Some (mkStatus 0 true) ∧
    volumes' !! "ns/a/v" = Some (mkStatus 0 true) ∧
    (∀ key st, volumes' !! key = Some st →
               2 < Int64.sub 3 (timestamp st) → confirmed st = true) ∧
    (volumes' !! "ns/a/v" = None ∨ volumes' !! "ns/a/v" = Some (mkStatus 0 true)).
Proof.
  exists Scenario.bothConfirmed.
  assert (Hcall : UpdateEphemeralVolumeCountIn map_to_list 3
                    (Some Scenario.vmiVW) (Some Scenario.vmNone) Scenario.mixed
                  = Some Scenario.bothConfirmed) by (vm_compute; reflexivity).
  split; [exact Hcall|].
  destruct (confirmation_after_threshold map_to_list 3 (Some Scenario.vmiVW)
              (Some Scenario.vmNone) Scenario.mixed Scenario.bothConfirmed
              (λ volumes, reflexivity _) Hcall) as (H1 & H2 & H3).
  assert (Hv : hotplugIn Scenario.vmiVW "v").
  { exists (Scenario.hotplug "v").
    split; [apply list_elem_of_here | split; reflexivity]. }
  assert (Hw : hotplugIn Scenario.vmiVW "w").
  { exists (Scenario.hotplug "w").
    split; [apply list_elem_of_further, list_elem_of_here | split; reflexivity]. }
  split; [|split; [|split]].
  - apply (H1 Scenario.vmiVW Scenario.vmNone eq_refl eq_refl
             "ns/a/w" (mkStatus 0 false) "ns" "a" "w");
      [vm_compute; reflexivity | reflexivity | exact Hw].
  - apply (H1 Scenario.vmiVW Scenario.vmNone eq_refl eq_refl
             "ns/a/v" (mkStatus 0 true) "ns" "a" "v");
      [vm_compute; reflexivity | reflexivity | exact Hv].
  - apply H2; eexists; reflexivity.
  - apply (H3 "ns/a/v" (mkStatus 0 true)); reflexivity.
Defined.

(** One call on the record of a hotplug volume that the template does
    not declare: the first loop leaves the record, the second loop
    confirms it beyond the threshold. *)
Lemma observe_undeclared now vmi vm name (volumes volumes' : Ledger) st :
  slashFree (vmiNamespace vmi) → slashFree (vmiName vmi) → slashFree name →
  hotplugIn vmi name → ¬ declaredBy vm name →
  volumes !! trackerKey (vmiNamespace vmi) (vmiName vmi) name = Some st →
  UpdateEphemeralVolumeCount now (Some vmi) (Some vm) volumes = Some volumes' →
  (firstLoop now vmi vm volumes).2
    !! trackerKey (vmiNamespace vmi) (vmiName vmi) name = Some st ∧
  volumes' !! trackerKey (vmiNamespace vmi) (vmiName vmi) name
  = Some (mkStatus (timestamp st)
            (confirmed st || (2 <? Int64.sub now (timestamp st)))).
Proof.
  intros Hns Hn Hv Hhot Hdecl Hst Hcall.
  assert (H1 : (firstLoop now vmi vm volumes).2
                 !! trackerKey (vmiNamespace vmi) (vmiName vmi) name = Some st)
    by by rewrite firstLoop_undeclared, Hst.
  split; [done|].
  rewrite (UpdateEphemeralVolumeCount_lookup _ _ _ _ _ _ Hcall), H1. simpl.
  rewrite sweepEntry_live by done.
  destruct st as [ts c]. simpl.
  destruct (2 <? Int64.sub now ts); simpl; [by rewrite orb_true_r|].
  by rewrite orb_false_r.
Qed.

(** C4, as the code has it. Over any sequence of calls that all see the
    volume hotplug-eligible and undeclared for its instance, the record
    stays and its [timestamp] is the one of the first detection; the
    only change is the [confirmed] flag, set by the calls made more than
    2 after that first detection. *)
Theorem timer_not_reset namespace name volume os (volumes volumes' : Ledger) st :
  slashFree namespace → slashFree name → slashFree volume →
  Forall (seesUndeclared namespace name volume) os →
  volumes !! trackerKey namespace name volume = Some st →
  observeAll os volumes = Some volumes' →
  volumes' !! trackerKey namespace name volume
  = Some (mkStatus (timestamp st)
            (confirmed st
             || existsb (λ o, 2 <? Int64.sub (obsNow o) (timestamp st)) os)).
Proof.
  intros Hns Hn Hv Hos. revert volumes st.
  induction Hos as [|o os Ho _ IH]; intros volumes st Hst Hall; simpl in *.
  - injection Hall as <-. rewrite Hst. destruct st. by rewrite orb_false_r.
  - destruct (observe o volumes) as [volumes1|] eqn:Hcall; [|done].
    simpl in Hall.
    destruct Ho as (vmi & vm & Hvmi & Hvm & <- & <- & Hhot & Hdecl).
    unfold observe in Hcall. rewrite Hvmi, Hvm in Hcall.
    destruct (observe_undeclared _ _ _ _ _ _ _ Hns Hn Hv Hhot Hdecl Hst Hcall)
      as [_ Hst1].
    rewrite (IH _ _ Hst1 Hall). simpl. by rewrite orb_assoc.
Qed.

Lemma timer_not_reset_witness :
  ∃ volumes',
    observeAll [mkObservation 1 (Some Scenario.vmiA) (Some Scenario.vmNone);
                mkObservation 7 (Some Scenario.vmiA) (Some Scenario.vmNone)]
      Scenario.tracked = Some volumes' ∧
    volumes' !! trackerKey "ns" "a" "v" = Some (mkStatus 0 true).
Proof.
  exists Scenario.trackedConfirmed. split; [vm_compute; reflexivity|].
  apply (timer_not_reset "ns" "a" "v"
           [mkObservation 1 (Some Scenario.vmiA) (Some Scenario.vmNone);
            mkObservation 7 (Some Scenario.vmiA) (Some Scenario.vmNone)]
           Scenario.tracked Scenario.trackedConfirmed (mkStatus 0 false));
    try reflexivity.
  assert (Hsees : ∀ now, seesUndeclared "ns" "a" "v"
            (mkObservation now (Some Scenario.vmiA) (Some Scenario.vmNone))).
  { intros now. exists Scenario.vmiA, Scenario.vmNone.
    repeat split; try reflexivity.
    - exists (Scenario.hotplug "v").
      split; [apply list_elem_of_here | split; reflexivity].
    - intros (v & Hin & _). inversion Hin. }
  repeat constructor; apply Hsees.
Defined.

(** C4, as stated, fails: a call made at time 3 for the still undeclared
    hotplug volume [v], first detected at time 0, does not leave its
    record unchanged: the call sets [confirmed]. *)
Lemma record_changed_by_confirmation :
  Scenario.tracked !! "ns/a/v" = Some (mkStatus 0 false) ∧
  ∃ volumes',
    UpdateEphemeralVolumeCount 3 (Some Scenario.vmiA) (Some Scenario.vmNone)
      Scenario.tracked = Some volumes' ∧
    volumes' !! "ns/a/v" = Some (mkStatus 0 true) ∧
    volumes' !! "ns/a/v" ≠ Scenario.tracked !! "ns/a/v".
Proof.
  split; [reflexivity|].
  exists Scenario.trackedConfirmed.
  split; [vm_compute; reflexivity|]. split; [reflexivity|]. discriminate.
Qed.

(** ** The collector callback *)

Lemma parseVolumeKey_sample key p0 p1 p2 :
  parseVolumeKey key = Some (p0, p1, p2) →
  sample key = mkResult vmiEphemeralHotplugVolumeTotal [p0; p1; p2]
                 (Float64.of_int64 1).
Proof.
  unfold parseVolumeKey, sample.
  destruct (Strings.Split slash key) as [|q0 [|q1 [|q2 rest]]]; simpl;
    intros [=]. by subst.
Qed.

(** The loop of the callback appends the samples of the confirmed
    entries, in the order of the iteration. *)
Lemma collect_spec order results :
  (∀ key st, (key, st) ∈ order → is_Some (parseVolumeKey key)) →
  collect order results
  = Some (results
          ++ (sample ∘ fst <$> filter (λ entry, confirmed entry.2 = true) order)).
Proof.
  revert results. induction order as [|[k st] rest IH]; intros results Hwf.
  { simpl. by rewrite app_nil_r. }
  assert (Hrest : ∀ key st0, (key, st0) ∈ rest → is_Some (parseVolumeKey key)).
  { intros key st0 Hin. apply (Hwf key st0). by apply list_elem_of_further. }
  simpl. rewrite filter_cons. simpl.
  destruct (confirmed st) eqn:Ec; simpl.
  - destruct (Hwf k st) as [[[p0 p1] p2] Hp]; [apply list_elem_of_here|].
    rewrite Hp. simpl. rewrite (IH _ Hrest).
    by rewrite (parseVolumeKey_sample _ _ _ _ Hp), <- app_assoc.
  - by apply IH.
Qed.

Lemma map_to_list_filter_perm (P : string * EphemeralStatus → Prop)
    `{∀ x, Decision (P x)} (volumes : Ledger) :
  filter P (map_to_list volumes) ≡ₚ map_to_list (filter P volumes).
Proof.
  apply NoDup_Permutation.
  - apply NoDup_filter, NoDup_map_to_list.
  - apply NoDup_map_to_list.
  - intros [k st]. rewrite list_elem_of_filter, !elem_of_map_to_list.
    rewrite map_lookup_filter_Some. tauto.
Qed.

(** C5. On every state of the tracker and for every iteration order the
    callback returns, leaves the map as it is, and its results are, up
    to their order, one sample per confirmed record, and nothing else:
    the labels are the three components of the key, the value is 1.
    There is no sample when no record is confirmed. *)
Theorem callback_samples order (volumes : Ledger) :
  reachable volumes → rangeOrder order →
  ∃ results,
    EphemeralVolumeMetricsCallbackIn order volumes = Some (results, volumes) ∧
    results ≡ₚ (sample ∘ fst <$> map_to_list (confirmedRecords volumes)) ∧
    (∀ r, r ∈ results →
          Float64.to_Z (resValue r) = Some 1 ∧
          ∃ key st, volumes !! key = Some st ∧ confirmed st = true ∧
                    parseVolumeKey key
                    = Some (resLabels r !!! 0%nat, resLabels r !!! 1%nat,
                            resLabels r !!! 2%nat)) ∧
    (confirmedRecords volumes = ∅ → results = []).
Proof.
  intros Hreach Horder. apply reachable_wf in Hreach.
  assert (Hwf : ∀ key st, (key, st) ∈ order volumes →
                          is_Some (parseVolumeKey key)).
  { intros key st Hin. rewrite (Horder volumes) in Hin.
    apply elem_of_map_to_list in Hin. by apply (Hreach key st). }
  unfold EphemeralVolumeMetricsCallbackIn.
  rewrite (collect_spec _ _ Hwf). simpl. eexists. split; [done|].
  assert (Hperm : sample ∘ fst <$>
                    filter (λ entry, confirmed entry.2 = true) (order volumes)
                  ≡ₚ sample ∘ fst <$> map_to_list (confirmedRecords volumes)).
  { unfold confirmedRecords.
    by rewrite (Horder volumes), map_to_list_filter_perm. }
  split; [done|]. split.
  - intros r Hr. rewrite Hperm in Hr.
    apply list_elem_of_fmap in Hr as ([key st] & Hr & Hin).
    change (r = sample key) in Hr. subst r.
    apply elem_of_map_to_list, map_lookup_filter_Some in Hin as [Hin Hc].
    split; [done|]. exists key, st. split; [done|]. split; [done|].
    destruct (Hreach key st Hin) as [[[p0 p1] p2] Hp].
    by rewrite (parseVolumeKey_sample _ _ _ _ Hp).
  - intros Hempty. apply Permutation_nil_r.
    by rewrite Hperm, Hempty, map_to_list_empty.
Qed.

Lemma callback_samples_witness :
  ∃ results,
    EphemeralVolumeMetricsCallbackIn map_to_list Scenario.trackedConfirmed
    = Some (results, Scenario.trackedConfirmed) ∧
    results ≡ₚ (sample ∘ fst
                <$> map_to_list (confirmedRecords Scenario.trackedConfirmed)) ∧
    (∀ r, r ∈ results →
          Float64.to_Z (resValue r) = Some 1 ∧
          ∃ key st, Scenario.trackedConfirmed !! key = Some st ∧
                    confirmed st = true ∧
                    parseVolumeKey key
                    = Some (resLabels r !!! 0%nat, resLabels r !!! 1%nat,
                            resLabels r !!! 2%nat)) ∧
    (confirmedRecords Scenario.trackedConfirmed = ∅ → results = []).
Proof.
  apply (callback_samples map_to_list Scenario.trackedConfirmed).
  - apply (reachable_step map_to_list 3 (Some Scenario.vmiA)
             (Some Scenario.vmNone) Scenario.tracked).
    + apply (reachable_step map_to_list 0 (Some Scenario.vmiA)
               (Some Scenario.vmNone) ∅).
      * apply reachable_init.
      * intros volumes. reflexivity.
      * vm_compute. reflexivity.
    + intros volumes. reflexivity.
    + vm_compute. reflexivity.
  - intros volumes. reflexivity.
Defined.

(** ** Records of other instances *)

(** The second loop looks at the third piece of a key only: after a call
    for an instance, no record whose volume name is not a live hotplug
    volume of that instance is left, whichever instance the record
    belongs to. *)
Lemma sweep_ignores_instance now vmi vm (volumes volumes' : Ledger) key p0 p1 name :
  UpdateEphemeralVolumeCount now (Some vmi) (Some vm) volumes = Some volumes' →
  parseVolumeKey key = Some (p0, p1, name) → ¬ hotplugIn vmi name →
  volumes' !! key = None.
Proof.
  intros Hcall Hp Hhot.
  rewrite (UpdateEphemeralVolumeCount_lookup _ _ _ _ _ key Hcall).
  destruct (_ !! key) as [st|]; [|done]. simpl.
  unfold sweepEntry. rewrite Hp. simpl.
  destruct (_ !! name) as [v|] eqn:Ev; [|done].
  destruct Hhot. apply (firstLoop_hotplug now vmi vm volumes). eauto.
Qed.

(** C1. The volume [v] of instance [ns/a] is detected at time 0 and is
    still attached and undeclared; one call for the instance [ns/b],
    which has no volumes, deletes the record of [ns/a/v]. *)
Theorem record_lost_to_other_instance :
  UpdateEphemeralVolumeCount 0 (Some Scenario.vmiA) (Some Scenario.vmNone) ∅
  = Some Scenario.tracked ∧
  Scenario.tracked !! trackerKey "ns" "a" "v" = Some (mkStatus 0 false) ∧
  UpdateEphemeralVolumeCount 1 (Some Scenario.vmiB) (Some Scenario.vmNone)
    Scenario.tracked = Some ∅.
Proof. repeat split; vm_compute; reflexivity. Qed.

(** ** Absent records *)

(** A call creates the record of a key only when it sees a hotplug
    volume with that key that the template does not declare. *)
Lemma observe_absent o (volumes volumes' : Ledger) key :
  volumes !! key = None → ¬ detects o key →
  observe o volumes = Some volumes' → volumes' !! key = None.
Proof.
  destruct o as [now [vmi|] [vm|]]; unfold observe; simpl;
    intros Hkey Hdet Hcall; try (by injection Hcall as <-).
  rewrite (UpdateEphemeralVolumeCount_lookup _ _ _ _ _ key Hcall).
  rewrite firstLoop_lookup, foldl_trackKey, Hkey.
  destruct (existsb (touches vmi key) _) eqn:Et; [|done].
  destruct (existsb (λ u, _ && _) _) eqn:Ed; [done|].
  destruct Hdet. apply existsb_exists in Et as (u & Hu & Ht).
  exists vmi, vm, (volumeName u).
  pose proof Ht as [Hh Hk%bool_decide_eq_true]%andb_true_iff.
  repeat split; try done.
  - exists u. by rewrite list_elem_of_In.
  - intros Hdecl%declaredIn_declaredBy.
    apply not_true_iff_false in Ed. apply Ed, existsb_exists.
    exists u. by rewrite Ht, Hdecl.
Qed.

Lemma observeAll_absent os (volumes volumes' : Ledger) key :
  volumes !! key = None → Forall (λ o, ¬ detects o key) os →
  observeAll os volumes = Some volumes' → volumes' !! key = None.
Proof.
  intros Hkey Hos. revert volumes Hkey.
  induction Hos as [|o os Ho _ IH]; intros volumes Hkey Hall; simpl in *.
  - by injection Hall as <-.
  - destruct (observe o volumes) as [volumes1|] eqn:Hcall; [|done].
    apply (IH volumes1); [|done]. by apply (observe_absent o volumes).
Qed.

(** Calls whose names have no ["/"] keep every key at three pieces. *)
Lemma observe_canonical o (volumes volumes' : Ledger) :
  canonicalLedger volumes → slashFreeObservation o →
  observe o volumes = Some volumes' → canonicalLedger volumes'.
Proof.
  destruct o as [now [vmi|] [vm|]]; unfold observe; simpl;
    intros Hcan Hfree Hcall; try (by injection Hcall as <-).
  destruct (Hfree vmi eq_refl) as (Hns & Hn & Hvols).
  intros key st Hst.
  rewrite (UpdateEphemeralVolumeCount_lookup _ _ _ _ _ key Hcall) in Hst.
  destruct (_ !! key) as [st0|] eqn:Hst0; [|done].
  rewrite firstLoop_lookup, foldl_trackKey in Hst0.
  destruct (existsb (touches vmi key) _) eqn:Et; [|by apply (Hcan key st0)].
  apply existsb_exists in Et as (u & Hu & [Hh Hk%bool_decide_eq_true]%andb_true_iff).
  rewrite <- Hk, Split_trackerKey; [done..|].
  apply Hvols. exists u. by rewrite list_elem_of_In.
Qed.

Lemma observeAll_canonical os (volumes volumes' : Ledger) :
  canonicalLedger volumes → Forall slashFreeObservation os →
  observeAll os volumes = Some volumes' → canonicalLedger volumes'.
Proof.
  intros Hcan Hos. revert volumes Hcan.
  induction Hos as [|o os Ho _ IH]; intros volumes Hcan Hall; simpl in *.
  - by injection Hall as <-.
  - destruct (observe o volumes) as [volumes1|] eqn:Hcall; [|done].
    apply (IH volumes1); [|done]. by apply (observe_canonical o volumes).
Qed.

(** A sample with the labels of a key that has no record is never
    returned, when every key has three pieces. *)
Lemma emits_absent (volumes : Ledger) namespace name volume :
  canonicalLedger volumes →
  volumes !! trackerKey namespace name volume = None →
  ¬ emits volumes [namespace; name; volume].
Proof.
  intros Hcan Hkey (order & results & volumes0 & Horder & Hcb & r & Hr & Hl).
  unfold EphemeralVolumeMetricsCallbackIn in Hcb.
  rewrite collect_spec in Hcb.
  - simpl in Hcb. injection Hcb as <- <-.
    apply list_elem_of_fmap in Hr as ([key st] & Hr & Hin).
    change (r = sample key) in Hr. subst r.
    apply list_elem_of_filter in Hin as [_ Hin].
    rewrite (Horder volumes) in Hin. apply elem_of_map_to_list in Hin.
    pose proof (Hcan key st Hin) as Hlen. simpl in Hlen.
    unfold sample in Hl. simpl in Hl.
    rewrite firstn_all2 in Hl by (by rewrite Hlen).
    assert (Hk : key = trackerKey namespace name volume)
      by by rewrite <- (Join_Split slash key), Hl.
    congruence.
  - intros key st Hin. rewrite (Horder volumes) in Hin.
    apply elem_of_map_to_list in Hin. apply parseVolumeKey_is_Some.
    by rewrite (Hcan key st Hin).
Qed.

(** C3, as the code has it. A call finds a tracked hotplug volume
    present in the desired template. Within the grace window of 60 the
    record is deleted, and for as long as no later call sees the volume
    hotplug-eligible and undeclared again, no record of it comes back;
    nor does a sample with its labels, provided the keys of the tracker
    have exactly three pieces each and the names that the later calls
    build keys from have no ["/"] (a key of more pieces, as of a volume
    named [v/w], is reported under the labels of its first three).
    Beyond the grace window the record is kept with its timestamp, and
    the confirmation step of the same call sets its [confirmed] flag. *)
Theorem declared_volume_record now vmi vm name (volumes volumes' : Ledger) st :
  slashFree (vmiNamespace vmi) → slashFree (vmiName vmi) → slashFree name →
  hotplugIn vmi name → declaredBy vm name →
  volumes !! trackerKey (vmiNamespace vmi) (vmiName vmi) name = Some st →
  UpdateEphemeralVolumeCount now (Some vmi) (Some vm) volumes = Some volumes' →
  (Int64.sub now (timestamp st) <= 60 →
   volumes' !! trackerKey (vmiNamespace vmi) (vmiName vmi) name = None ∧
   ∀ os volumes'',
     Forall (λ o, ¬ detects o (trackerKey (vmiNamespace vmi) (vmiName vmi) name)) os →
     observeAll os volumes' = Some volumes'' →
     volumes'' !! trackerKey (vmiNamespace vmi) (vmiName vmi) name = None ∧
     (canonicalLedger volumes' → Forall slashFreeObservation os →
      ¬ emits volumes'' [vmiNamespace vmi; vmiName vmi; name]))
  ∧
  (60 < Int64.sub now (timestamp st) →
   volumes' !! trackerKey (vmiNamespace vmi) (vmiName vmi) name
   = Some (confirm st)).
Proof.
  intros Hns Hn Hv Hhot Hdecl Hst Hcall.
  pose proof (UpdateEphemeralVolumeCount_lookup _ _ _ _ _
    (trackerKey (vmiNamespace vmi) (vmiName vmi) name) Hcall) as Hl.
  rewrite firstLoop_declared, Hst in Hl by done. simpl in Hl.
  split.
  - intros Hle. apply Z.leb_le in Hle. rewrite Hle in Hl. simpl in Hl.
    split; [done|]. intros os volumes'' Hdet Hall.
    assert (Hkey : volumes'' !! trackerKey (vmiNamespace vmi) (vmiName vmi) name
                   = None) by by apply (observeAll_absent os volumes').
    split; [done|]. intros Hcan Hfree. apply emits_absent; [|done].
    by apply (observeAll_canonical os volumes').
  - intros Hgt. rewrite (proj2 (Z.leb_gt _ _) Hgt) in Hl. simpl in Hl.
    rewrite sweepEntry_live in Hl by done.
    by rewrite (proj2 (Z.ltb_lt 2 _)) in Hl by lia.
Qed.

Lemma declared_volume_record_witness :
  (∃ volumes' volumes'',
     UpdateEphemeralVolumeCount 30 (Some Scenario.vmiA) (Some Scenario.vmV)
       Scenario.tracked = Some volumes' ∧
     volumes' !! trackerKey "ns" "a" "v" = None ∧
     observeAll [mkObservation 35 (Some Scenario.vmiA) (Some Scenario.vmV);
                 mkObservation 99 (Some Scenario.vmiB) (Some Scenario.vmNone)]
       volumes' = Some volumes'' ∧
     volumes'' !! trackerKey "ns" "a" "v" = None ∧
     ¬ emits volumes'' ["ns"; "a"; "v"]) ∧
  (∃ volumes',
     UpdateEphemeralVolumeCount 100 (Some Scenario.vmiA) (Some Scenario.vmV)
       Scenario.tracked = Some volumes' ∧
     volumes' !! trackerKey "ns" "a" "v" = Some (mkStatus 0 true)).
Proof.
  assert (Hhot : hotplugIn Scenario.vmiA "v").
  { exists (Scenario.hotplug "v").
    split; [apply list_elem_of_here | split; reflexivity]. }
  assert (Hdecl : declaredBy Scenario.vmV "v").
  { exists (Scenario.hotplug "v").
    split; [apply list_elem_of_here | reflexivity]. }
  split.
  - exists ∅, ∅.
    assert (Hcall : UpdateEphemeralVolumeCount 30 (Some Scenario.vmiA)
                      (Some Scenario.vmV) Scenario.tracked = Some ∅)
      by (vm_compute; reflexivity).
    split; [exact Hcall|].
    destruct (declared_volume_record 30 Scenario.vmiA Scenario.vmV "v"
                Scenario.tracked ∅ (mkStatus 0 false)
                eq_refl eq_refl eq_refl Hhot Hdecl eq_refl Hcall) as [H _].
    destruct H as [Hnone Hlater]; [vm_compute; discriminate|].
    split; [exact Hnone|].
    assert (Hall : observeAll
                     [mkObservation 35 (Some Scenario.vmiA) (Some Scenario.vmV);
                      mkObservation 99 (Some Scenario.vmiB) (Some Scenario.vmNone)]
                     ∅ = Some ∅) by (vm_compute; reflexivity).
    split; [exact Hall|].
    assert (Hdet : Forall (λ o, ¬ detects o (trackerKey "ns" "a" "v"))
                     [mkObservation 35 (Some Scenario.vmiA) (Some Scenario.vmV);
                      mkObservation 99 (Some Scenario.vmiB) (Some Scenario.vmNone)]).
    { constructor; [|constructor; [|constructor]].
      - intros (vmi & vm & name & [= <-] & [= <-] & (v & Hin & _ & <-) & Hnd & _).
        apply list_elem_of_singleton in Hin as ->. by apply Hnd.
      - intros (vmi & vm & name & [= <-] & _ & (v & Hin & _) & _).
        inversion Hin. }
    destruct (Hlater _ ∅ Hdet Hall) as [Hrecord Hsample].
    split; [exact Hrecord|].
    apply Hsample; [apply map_Forall_empty|].
    constructor; [|constructor; [|constructor]];
      intros vmi [= <-]; (split; [reflexivity|]);
      (split; [reflexivity|]); intros name (v & Hin & _ & <-).
    + apply list_elem_of_singleton in Hin as ->. reflexivity.
    + inversion Hin.
  - exists Scenario.trackedConfirmed.
    assert (Hcall : UpdateEphemeralVolumeCount 100 (Some Scenario.vmiA)
                      (Some Scenario.vmV) Scenario.tracked
                    = Some Scenario.trackedConfirmed)
      by (vm_compute; reflexivity).
    split; [exact Hcall|].
    destruct (declared_volume_record 100 Scenario.vmiA Scenario.vmV "v"
                Scenario.tracked Scenario.trackedConfirmed (mkStatus 0 false)
                eq_refl eq_refl eq_refl Hhot Hdecl eq_refl Hcall) as [_ H].
    apply H. vm_compute. reflexivity.
Defined.

(** C3, as stated, fails twice. Beyond the grace window the call does
    not leave the record as it is: the record of [v], first detected at
    0 and unconfirmed, is confirmed by the call made at 100 that finds
    [v] declared. And a record deleted in the grace window can come
    back: [v] is declared at 30, undeclared again at 40, and a sample
    for it is returned after the call at 50. *)
Lemma declared_record_promoted_or_back :
  (Scenario.tracked !! "ns/a/v" = Some (mkStatus 0 false) ∧
   ∃ volumes',
     UpdateEphemeralVolumeCount 100 (Some Scenario.vmiA) (Some Scenario.vmV)
       Scenario.tracked = Some volumes' ∧
     volumes' !! "ns/a/v" = Some (mkStatus 0 true) ∧
     volumes' !! "ns/a/v" ≠ Scenario.tracked !! "ns/a/v") ∧
  (∃ volumes1 volumes2,
     UpdateEphemeralVolumeCount 30 (Some Scenario.vmiA) (Some Scenario.vmV)
       Scenario.tracked = Some volumes1 ∧
     volumes1 !! "ns/a/v" = None ∧
     observeAll [mkObservation 40 (Some Scenario.vmiA) (Some Scenario.vmNone);
                 mkObservation 50 (Some Scenario.vmiA) (Some Scenario.vmNone)]
       volumes1 = Some volumes2 ∧
     EphemeralVolumeMetricsCallback volumes2
     = Some ([mkResult vmiEphemeralHotplugVolumeTotal ["ns"; "a"; "v"]
                (Float64.of_int64 1)], volumes2)).
Proof.
  split.
  - split; [reflexivity|]. exists Scenario.trackedConfirmed.
    split; [vm_compute; reflexivity|]. split; [reflexivity|]. discriminate.
  - exists ∅, {[ "ns/a/v" := mkStatus 40 true ]}.
    repeat split; vm_compute; reflexivity.
Qed.

(** ** Conversion of an [int64] to binary64 *)

Section float64.

Lemma digits2_pos_lower m : 2 ^ (Z.pos (digits2_pos m) - 1) <= Z.pos m.
Proof.
  induction m as [m IH|m IH|]; simpl digits2_pos; [| |simpl; lia].
  all: rewrite Pos2Z.inj_succ;
    replace (Z.succ (Z.pos (digits2_pos m)) - 1)
      with (Z.succ (Z.pos (digits2_pos m) - 1)) by lia;
    rewrite Z.pow_succ_r by lia; lia.
Qed.

Lemma iter_xO_value m p : Z.pos (Pos.iter xO m p) = Z.pos m * 2 ^ Z.pos p.
Proof.
  induction p as [|p IH] using Pos.peano_ind.
  - simpl. lia.
  - rewrite Pos.iter_succ, Pos2Z.inj_succ, Z.pow_succ_r by lia.
    rewrite Pos2Z.inj_xO, IH. lia.
Qed.

Lemma iter_xO_digits m p :
  digits2_pos (Pos.iter xO m p) = (digits2_pos m + p)%positive.
Proof.
  induction p as [|p IH] using Pos.peano_ind.
  - simpl. lia.
  - rewrite Pos.iter_succ. simpl. rewrite IH. lia.
Qed.

(** A mantissa of 53 digits is not rounded. *)
Lemma binary_round_aux_exact s mz ez :
  Z.pos (digits2_pos mz) = 53 → -1074 <= ez <= 971 →
  binary_round_aux 53 1024 s (Z.pos mz) ez loc_Exact = S754_finite s mz ez.
Proof.
  intros Hd He.
  unfold binary_round_aux, shr_fexp, fexp, emin.
  cbn [Zdigits2 shr_record_of_loc]. rewrite Hd.
  replace (Z.max (53 + ez - 53) (3 - 1024 - 53) - ez) with 0 by lia.
  cbn [shr shr_m loc_of_shr_record round_nearest_even Zdigits2]. rewrite Hd.
  replace (Z.max (53 + ez - 53) (3 - 1024 - 53) - ez) with 0 by lia.
  cbn [shr shr_m].
  destruct (Z.leb_spec ez (1024 - 53)); [done | lia].
Qed.

Lemma of_int64_pos m :
  Z.pos m < 2 ^ 53 → Float64.to_Z (Float64.of_int64 (Z.pos m)) = Some (Z.pos m).
Proof.
  intros Hm. pose proof (digits2_pos_lower m) as Hlow.
  assert (Hd : Z.pos (digits2_pos m) <= 53).
  { destruct (Z.le_gt_cases (Z.pos (digits2_pos m)) 53) as [?|Hgt]; [done|].
    assert (2 ^ 53 <= 2 ^ (Z.pos (digits2_pos m) - 1))
      by (apply Z.pow_le_mono_r; lia).
    lia. }
  unfold Float64.of_int64, binary_normalize, binary_round, shl_align, fexp, emin.
  unfold Float64.prec, Float64.emax.
  replace (Z.max (Z.pos (digits2_pos m) + 0 - 53) (3 - 1024 - 53) - 0)
    with (Z.pos (digits2_pos m) - 53) by lia.
  destruct (Z.pos (digits2_pos m) - 53) as [|p|p] eqn:E; [|lia|].
  - rewrite binary_round_aux_exact by lia. simpl. f_equal. lia.
  - replace (Z.max (Z.pos (digits2_pos m) + 0 - 53) (3 - 1024 - 53))
      with (Z.neg p) by lia.
    rewrite binary_round_aux_exact by (rewrite ?iter_xO_digits; lia).
    unfold Float64.to_Z. change (0 <=? Z.neg p) with false.
    cbn [Z.opp cond_Zopp].
    by rewrite iter_xO_value, Z.mod_mul, Z.div_mul by lia.
Qed.

(** The integers from 0 to 2^53 are binary64 numbers. *)
Lemma of_int64_exact x :
  0 <= x <= 2 ^ 53 → Float64.to_Z (Float64.of_int64 x) = Some x.
Proof.
  intros Hx. destruct (decide (x = 2 ^ 53)) as [->|Hne].
  { vm_compute. reflexivity. }
  destruct x as [|m|m]; [reflexivity | apply of_int64_pos | lia].
  change (2 ^ 53) with 9007199254740992 in *. lia.
Qed.

End float64.

(** ** The memory-overhead gauge *)

(** A set leaves the child of the instance with the converted value,
    whether the child existed or not. *)
Lemma SetVmiLaucherMemoryOverhead_insert (vmi : VirtualMachineInstance) (X : Z)
    (g : GaugeVec.t) :
  SetVmiLaucherMemoryOverhead vmi X g
  = <[labelsOf vmi := Float64.of_int64 X]> g.
Proof.
  unfold SetVmiLaucherMemoryOverhead, GaugeVec.WithLabelValues, GaugeVec.Set_.
  fold (labelsOf vmi).
  destruct (g !! labelsOf vmi); [done | by rewrite insert_insert_eq].
Qed.

(** A read gives the value of the child, 0 for a child it creates. *)
Lemma GetVmiLaucherMemoryOverhead_lookup (vmi : VirtualMachineInstance)
    (g : GaugeVec.t) :
  GetVmiLaucherMemoryOverhead vmi g
  = (default GaugeVec.zero (g !! labelsOf vmi), None).
Proof.
  unfold GetVmiLaucherMemoryOverhead, GaugeVec.WithLabelValues, GaugeVec.Write.
  fold (labelsOf vmi). by destruct (g !! labelsOf vmi).
Qed.

Lemma setAll_other (vmi : VirtualMachineInstance)
    (sets : list (VirtualMachineInstance * Z)) (g : GaugeVec.t) :
  Forall (λ set, labelsOf set.1 ≠ labelsOf vmi) sets →
  setAll sets g !! labelsOf vmi = g !! labelsOf vmi.
Proof.
  intros Hsets. revert g.
  induction Hsets as [|[vmi' x] sets Hne _ IH]; intros g; simpl; [done|].
  unfold setAll in *. simpl. rewrite IH.
  rewrite SetVmiLaucherMemoryOverhead_insert.
  by rewrite lookup_insert_ne.
Qed.

Lemma setAll_lookup (labels : list string) (sets : list (VirtualMachineInstance * Z))
    (g : GaugeVec.t) :
  setAll sets g !! labels
  = match lastSet labels sets with
    | Some x => Some (Float64.of_int64 x)
    | None => g !! labels
    end.
Proof.
  revert g. induction sets as [|[vmi x] sets IH] using rev_ind; intros g.
  { done. }
  unfold setAll, lastSet in *. rewrite foldl_app, omap_app. simpl.
  rewrite SetVmiLaucherMemoryOverhead_insert.
  destruct (decide (labelsOf vmi = labels)) as [<-|Hne].
  - by rewrite lookup_insert_eq, last_snoc.
  - rewrite lookup_insert_ne by done. simpl. rewrite app_nil_r. apply IH.
Qed.

(** C6, as the code has it. For [0 <= X <= 2^53] the value read back
    after [SetVmiLaucherMemoryOverhead] with [X], and any calls for other
    instances in between, denotes [X] exactly, and there is no error. *)
Theorem memory_overhead_round_trip (vmi : VirtualMachineInstance) (X : Z)
    (others : list (VirtualMachineInstance * Z)) (g : GaugeVec.t) :
  0 <= X <= 2 ^ 53 →
  Forall (λ set, labelsOf set.1 ≠ labelsOf vmi) others →
  GetVmiLaucherMemoryOverhead vmi
    (setAll others (SetVmiLaucherMemoryOverhead vmi X g))
  = (Float64.of_int64 X, None) ∧
  Float64.to_Z (Float64.of_int64 X) = Some X.
Proof.
  intros HX Hothers. split; [|by apply of_int64_exact].
  rewrite GetVmiLaucherMemoryOverhead_lookup, setAll_other by done.
  by rewrite SetVmiLaucherMemoryOverhead_insert, lookup_insert_eq.
Qed.

Lemma memory_overhead_round_trip_witness :
  GetVmiLaucherMemoryOverhead Scenario.vmiA
    (setAll [(Scenario.vmiB, 7)]
       (SetVmiLaucherMemoryOverhead Scenario.vmiA 209715200 GaugeVec.empty))
  = (Float64.of_int64 209715200, None) ∧
  Float64.to_Z (Float64.of_int64 209715200) = Some 209715200.
Proof.
  apply (memory_overhead_round_trip Scenario.vmiA 209715200
           [(Scenario.vmiB, 7)] GaugeVec.empty).
  - lia.
  - repeat constructor. discriminate.
Defined.

(** C6, as stated, fails: 2^53 + 1 is not a binary64 number, and is read
    back as 2^53. *)
Lemma memory_overhead_rounded :
  ∃ f,
    GetVmiLaucherMemoryOverhead Scenario.vmiA
      (SetVmiLaucherMemoryOverhead Scenario.vmiA 9007199254740993 GaugeVec.empty)
    = (f, None) ∧
    Float64.to_Z f = Some 9007199254740992 ∧
    Float64.to_Z f ≠ Some 9007199254740993.
Proof.
  eexists. split; [reflexivity|]. split; [vm_compute; reflexivity|].
  vm_compute. discriminate.
Qed.

(** C7, as the code has it. After any sequence of sets on the fresh
    gauge, the read for an instance never fails: when no set was made
    for its labels it gives the value 0 of the child that
    [WithLabelValues] creates, without error, and otherwise the value of
    the last such set, without error. *)
Theorem memory_overhead_get vmi sets :
  GetVmiLaucherMemoryOverhead vmi (setAll sets GaugeVec.empty)
  = match lastSet (labelsOf vmi) sets with
    | None => (GaugeVec.zero, None)
    | Some X => (Float64.of_int64 X, None)
    end.
Proof.
  rewrite GetVmiLaucherMemoryOverhead_lookup, setAll_lookup.
  destruct (lastSet _ _); [done|].
  unfold GaugeVec.empty. by rewrite lookup_empty.
Qed.

(** C7, as stated, fails: the read of a pair that was never set returns
    the value 0 and no error, the same as the read after a set of 0. *)
Lemma memory_overhead_unset_reads_zero :
  GetVmiLaucherMemoryOverhead Scenario.vmiA GaugeVec.empty
  = (S754_zero false, None) ∧
  Float64.to_Z (S754_zero false) = Some 0 ∧
  GetVmiLaucherMemoryOverhead Scenario.vmiA
    (SetVmiLaucherMemoryOverhead Scenario.vmiA 0 GaugeVec.empty)
  = GetVmiLaucherMemoryOverhead Scenario.vmiA GaugeVec.empty.
Proof. repeat split. Qed.

(** * Further properties of the code *)

(** ** Keys and their pieces *)

Lemma Split_pieces_free sep s :
  Forall (λ piece, Strings.contains sep piece = false) (Strings.Split sep s).
Proof.
  induction s as [|c s IH]; simpl; [by repeat constructor|].
  destruct (Ascii.eqb c sep) eqn:E; [by constructor|].
  destruct (Strings.Split sep s) as [|p ps].
  { constructor; [simpl; by rewrite E | constructor]. }
  inversion IH as [|? ? Hp Hps]; subst. constructor; [|done].
  simpl. by rewrite E.
Qed.

(** X1. The components that [parseVolumeKey] returns never contain the
    delimiter: whatever the key, the three label values are free of
    ["/"]. *)
Theorem parseVolumeKey_slashFree key p0 p1 p2 :
  parseVolumeKey key = Some (p0, p1, p2) →
  slashFree p0 ∧ slashFree p1 ∧ slashFree p2.
Proof.
  unfold parseVolumeKey, slashFree.
  pose proof (Split_pieces_free slash key) as H.
  destruct (Strings.Split slash key) as [|q0 [|q1 [|q2 rest]]]; simpl;
    intros [=]; subst.
  inversion H as [|? ? H0 H']; subst.
  inversion H' as [|? ? H1 H'']; subst.
  by inversion H'' as [|? ? H2 _]; subst.
Qed.

Lemma parseVolumeKey_slashFree_witness :
  slashFree "a" ∧ slashFree "" ∧ slashFree "c".
Proof.
  apply (parseVolumeKey_slashFree "a//c/d/e" "a" "" "c"). reflexivity.
Defined.

(** X2. Decoding then encoding: a key of exactly three pieces is the
    key that [trackerKey] builds from the components [parseVolumeKey]
    returns, so on such keys [parseVolumeKey] loses nothing. *)
Theorem trackerKey_parseVolumeKey key p0 p1 p2 :
  length (Strings.Split slash key) = 3%nat →
  parseVolumeKey key = Some (p0, p1, p2) →
  trackerKey p0 p1 p2 = key.
Proof.
  unfold parseVolumeKey. intros Hlen Hp.
  rewrite <- (Join_Split slash key).
  destruct (Strings.Split slash key) as [|q0 [|q1 [|q2 [|q3 rest]]]];
    simpl in *; try done.
  by injection Hp as -> -> ->.
Qed.

Lemma trackerKey_parseVolumeKey_witness :
  trackerKey "ns" "" "disk" = "ns//disk".
Proof.
  apply (trackerKey_parseVolumeKey "ns//disk" "ns" "" "disk"); reflexivity.
Defined.

(** ** What a call does to the tracker *)

(** X3. The removal sweep: every record left by a call that runs both
    loops has a key of at least three pieces whose third piece is the
    name of a hotplug-eligible volume of the live instance of that call;
    all other records are gone, confirmed or not. *)
Theorem survivors_are_live_hotplug now vmi vm (volumes volumes' : Ledger) key st :
  UpdateEphemeralVolumeCount now (Some vmi) (Some vm) volumes = Some volumes' →
  volumes' !! key = Some st →
  ∃ p0 p1 name, parseVolumeKey key = Some (p0, p1, name) ∧ hotplugIn vmi name.
Proof.
  intros Hcall Hst.
  rewrite (UpdateEphemeralVolumeCount_lookup _ _ _ _ _ key Hcall) in Hst.
  destruct (_ !! key) as [st1|]; [|done]. simpl in Hst.
  unfold sweepEntry in Hst.
  destruct (parseVolumeKey key) as [[[p0 p1] name]|]; [|done]. simpl in Hst.
  destruct (_ !! name) as [v|] eqn:Ev; [|done].
  exists p0, p1, name. split; [done|].
  apply (firstLoop_hotplug now vmi vm volumes). eauto.
Qed.

Lemma survivors_are_live_hotplug_witness :
  ∃ p0 p1 name,
    parseVolumeKey "ns/a/v" = Some (p0, p1, name) ∧ hotplugIn Scenario.vmiA name.
Proof.
  apply (survivors_are_live_hotplug 3 Scenario.vmiA Scenario.vmNone
           Scenario.tracked Scenario.trackedConfirmed "ns/a/v" (mkStatus 0 true)).
  - vm_compute. reflexivity.
  - reflexivity.
Defined.

(** X4. Go does not fix the order in which the second loop ranges over
    the map; the result of a call, a panic included, is the same for
    any two orders. *)
Theorem update_order_irrelevant order1 order2 now vmi vm (volumes : Ledger) :
  rangeOrder order1 → rangeOrder order2 →
  UpdateEphemeralVolumeCountIn order1 now vmi vm volumes
  = UpdateEphemeralVolumeCountIn order2 now vmi vm volumes.
Proof.
  intros H1 H2. destruct vmi as [vmi|], vm as [vm|]; try done.
  rewrite !UpdateEphemeralVolumeCountIn_unfold.
  destruct (vmTemplate vm); [|done].
  by rewrite (sweep_order _ _ (order1 _)), (sweep_order _ _ (order2 _)).
Qed.

Lemma update_order_irrelevant_witness :
  reverse (map_to_list Scenario.mixed) ≠ map_to_list Scenario.mixed ∧
  UpdateEphemeralVolumeCountIn map_to_list 3 (Some Scenario.vmiVW)
    (Some Scenario.vmNone) Scenario.mixed
  = UpdateEphemeralVolumeCountIn (λ volumes, reverse (map_to_list volumes)) 3
      (Some Scenario.vmiVW) (Some Scenario.vmNone) Scenario.mixed.
Proof.
  split; [vm_compute; discriminate|].
  apply (update_order_irrelevant map_to_list
           (λ volumes, reverse (map_to_list volumes))).
  - intros volumes. reflexivity.
  - intros volumes. apply reverse_Permutation.
Defined.

Lemma observeAll_wf os (volumes : Ledger) :
  wfLedger volumes → Forall templateSet os →
  ∃ volumes', observeAll os volumes = Some volumes' ∧ wfLedger volumes'.
Proof.
  intros Hwf Hos. revert volumes Hwf.
  induction Hos as [|o os Ho _ IH]; intros volumes Hwf; simpl.
  - by exists volumes.
  - destruct (UpdateEphemeralVolumeCountIn_total map_to_list (obsNow o)
                (obsVmi o) (obsVm o) volumes) as (volumes1 & Hcall & Hwf1);
      [apply rangeOrder_map_to_list | done | exact Ho |].
    unfold observe, UpdateEphemeralVolumeCount. rewrite Hcall. simpl.
    by apply IH.
Qed.

Lemma observeAll_nil_template os (volumes : Ledger) :
  wfLedger volumes → ¬ Forall templateSet os → observeAll os volumes = None.
Proof.
  revert volumes. induction os as [|o os IH]; intros volumes Hwf Hos; simpl.
  - destruct Hos. constructor.
  - destruct o as [now ovmi ovm]. unfold observe. cbn [obsNow obsVmi obsVm].
    assert (Hcase : (∃ vmi vm, ovmi = Some vmi ∧ ovm = Some vm
                               ∧ vmTemplate vm = None)
                    ∨ templateSet (mkObservation now ovmi ovm)).
    { destruct ovmi as [vmi|], ovm as [vm|];
        try (right; intros ? ? [=] [=]; done).
      destruct (vmTemplate vm) eqn:E; [right | left; eauto].
      intros ? ? [= <-] [= <-]. rewrite E. eauto. }
    destruct Hcase as [(vmi & vm & -> & -> & E)|Ho].
    + unfold UpdateEphemeralVolumeCount.
      by rewrite UpdateEphemeralVolumeCountIn_unfold, E.
    + destruct (UpdateEphemeralVolumeCountIn_total map_to_list now ovmi ovm
                  volumes) as (volumes1 & Hcall & Hwf1);
        [apply rangeOrder_map_to_list | done | exact Ho |].
      unfold UpdateEphemeralVolumeCount. rewrite Hcall. simpl.
      apply IH; [done|]. intros Hos'. apply Hos. by constructor.
Qed.

(** X5. Started on the empty tracker, a sequence of calls of
    [UpdateEphemeralVolumeCount] panics only by the nil [Spec.Template]
    of a machine passed with a live instance (l. 87): without such a
    call no call panics, whatever the other arguments, nil objects
    included, and the collector callback returns on the map they leave;
    the index expressions of [parseVolumeKey] are never out of range on
    a stored key. With such a call the sequence panics. *)
Theorem tracker_never_panics os :
  (Forall templateSet os →
   ∃ volumes results,
     observeAll os ∅ = Some volumes ∧
     EphemeralVolumeMetricsCallback volumes = Some (results, volumes)) ∧
  (¬ Forall templateSet os → observeAll os ∅ = None).
Proof.
  split; [|by apply observeAll_nil_template, map_Forall_empty].
  intros Hos.
  destruct (observeAll_wf os ∅) as (volumes & Hall & Hwf);
    [apply map_Forall_empty | done |].
  exists volumes. eexists. split; [done|].
  unfold EphemeralVolumeMetricsCallback, EphemeralVolumeMetricsCallbackIn.
  rewrite collect_spec; [done|].
  intros key st Hin%elem_of_map_to_list. by apply (Hwf key st).
Qed.

Lemma tracker_never_panics_witness :
  (∃ volumes results,
     observeAll [mkObservation 0 (Some Scenario.vmiVW) (Some Scenario.vmNone);
                 mkObservation 1 None (Some Scenario.vmNoTemplate);
                 mkObservation 3 (Some Scenario.vmiVW) None;
                 mkObservation 4 (Some Scenario.vmiA) (Some Scenario.vmV)] ∅
     = Some volumes ∧
     EphemeralVolumeMetricsCallback volumes = Some (results, volumes)) ∧
  observeAll [mkObservation 0 (Some Scenario.vmiA) (Some Scenario.vmNoTemplate)] ∅
  = None.
Proof.
  split.
  - apply (proj1 (tracker_never_panics
             [mkObservation 0 (Some Scenario.vmiVW) (Some Scenario.vmNone);
              mkObservation 1 None (Some Scenario.vmNoTemplate);
              mkObservation 3 (Some Scenario.vmiVW) None;
              mkObservation 4 (Some Scenario.vmiA) (Some Scenario.vmV)])).
    repeat (constructor; [intros vmi vm Hvmi Hvm; simpl in *; simplify_eq;
                          eexists; reflexivity|]).
    constructor.
  - apply (proj2 (tracker_never_panics
             [mkObservation 0 (Some Scenario.vmiA) (Some Scenario.vmNoTemplate)])).
    intros H. inversion H as [|? ? Ho _]; subst.
    destruct (Ho Scenario.vmiA Scenario.vmNoTemplate eq_refl eq_refl) as [? [=]].
Defined.

Lemma Int64_sub_diag now : Int64.sub now now = 0.
Proof. unfold Int64.sub. by rewrite Z.sub_diag. Qed.

(** X6. What any call may do to a record. A record found after the call
    either was there before, with the same timestamp and with its
    [confirmed] flag unchanged or raised from false to true because
    more than 2 have elapsed; or it is new, and then the call saw a
    hotplug-eligible volume with that key that the template does not
    declare, and the record has the time of the call and is not
    confirmed. *)
Theorem call_frame now vmi vm (volumes volumes' : Ledger) key st :
  UpdateEphemeralVolumeCount now vmi vm volumes = Some volumes' →
  volumes' !! key = Some st →
  (∃ st0, volumes !! key = Some st0 ∧
          timestamp st = timestamp st0 ∧
          (confirmed st = confirmed st0 ∨
           (confirmed st0 = false ∧ confirmed st = true ∧
            2 < Int64.sub now (timestamp st0))))
  ∨
  (volumes !! key = None ∧ detects (mkObservation now vmi vm) key ∧
   st = mkStatus now false).
Proof.
  intros Hcall Hst.
  assert (Hsweep : ∀ m st0, sweepEntry now m key st0 = Some st →
            timestamp st = timestamp st0 ∧
            (confirmed st = confirmed st0 ∨
             (confirmed st0 = false ∧ confirmed st = true ∧
              2 < Int64.sub now (timestamp st0)))).
  { intros m st0. unfold sweepEntry.
    destruct (parseVolumeKey key) as [[[? ?] n]|]; [|done]. simpl.
    destruct (m !! n); [|done].
    destruct (2 <? Int64.sub now (timestamp st0)) eqn:E; intros [= <-];
      [|by split; [|left]].
    apply Z.ltb_lt in E. split; [done|].
    destruct (confirmed st0) eqn:Ec; [by left | by right]. }
  destruct vmi as [vmi|], vm as [vm|];
    try (injection Hcall as <-; left; exists st; by split; [|split; [|left]]).
  rewrite (UpdateEphemeralVolumeCount_lookup _ _ _ _ _ key Hcall) in Hst.
  destruct (_ !! key) as [st1|] eqn:Hst1; [|done]. simpl in Hst.
  rewrite firstLoop_lookup, foldl_trackKey in Hst1.
  destruct (existsb (touches vmi key) _) eqn:Et.
  - destruct (existsb (λ u, _ && _) _) eqn:Ed.
    + destruct (volumes !! key) as [st0|] eqn:Hst0; [|done]. simpl in Hst1.
      destruct (_ <=? 60); [done|]. injection Hst1 as <-.
      left. exists st0. split; [done|]. by eapply Hsweep.
    + destruct (volumes !! key) as [st0|] eqn:Hst0; simpl in Hst1;
        injection Hst1 as <-.
      * left. exists st0. split; [done|]. by eapply Hsweep.
      * right. split; [done|]. split.
        -- apply existsb_exists in Et as (u & Hu & Ht).
           exists vmi, vm, (volumeName u).
           pose proof Ht as [Hh Hk%bool_decide_eq_true]%andb_true_iff.
           repeat split; try done.
           ++ exists u. by rewrite list_elem_of_In.
           ++ intros Hdecl%declaredIn_declaredBy.
              apply not_true_iff_false in Ed. apply Ed, existsb_exists.
              exists u. by rewrite Ht, Hdecl.
        -- unfold sweepEntry in Hst.
           destruct (parseVolumeKey key) as [[[? ?] n]|]; [|done].
           simpl in Hst. destruct (_ !! n); [|done].
           rewrite Int64_sub_diag in Hst. by injection Hst as <-.
  - left. exists st1. split; [done|]. by eapply Hsweep.
Qed.

Lemma call_frame_witness :
  (∃ st0, Scenario.tracked !! "ns/a/v" = Some st0 ∧
          timestamp (mkStatus 0 true) = timestamp st0 ∧
          (confirmed (mkStatus 0 true) = confirmed st0 ∨
           (confirmed st0 = false ∧ confirmed (mkStatus 0 true) = true ∧
            2 < Int64.sub 3 (timestamp st0))))
  ∨
  (Scenario.tracked !! "ns/a/v" = None ∧
   detects (mkObservation 3 (Some Scenario.vmiA) (Some Scenario.vmNone)) "ns/a/v" ∧
   mkStatus 0 true = mkStatus 3 false).
Proof.
  apply (call_frame 3 (Some Scenario.vmiA) (Some Scenario.vmNone)
           Scenario.tracked Scenario.trackedConfirmed "ns/a/v" (mkStatus 0 true)).
  - vm_compute. reflexivity.
  - reflexivity.
Defined.

(** ** From detection to the reported sample *)

Lemma observe_wf o (volumes volumes' : Ledger) :
  wfLedger volumes → observe o volumes = Some volumes' → wfLedger volumes'.
Proof.
  intros Hwf Hcall.
  by apply (UpdateEphemeralVolumeCountIn_wf map_to_list (obsNow o) (obsVmi o)
              (obsVm o) volumes); [apply rangeOrder_map_to_list | |].
Qed.

(** A confirmed record of a well-formed map is reported. *)
Lemma emits_present (volumes : Ledger) key st p0 p1 p2 :
  wfLedger volumes → volumes !! key = Some st → confirmed st = true →
  parseVolumeKey key = Some (p0, p1, p2) → emits volumes [p0; p1; p2].
Proof.
  intros Hwf Hst Hc Hp. exists map_to_list. eexists. exists volumes.
  split; [apply rangeOrder_map_to_list|].
  unfold EphemeralVolumeMetricsCallbackIn. rewrite collect_spec.
  - simpl. split; [done|]. exists (sample key). split.
    + apply list_elem_of_fmap. exists (key, st). split; [done|].
      apply list_elem_of_filter. split; [done|]. by apply elem_of_map_to_list.
    + by rewrite (parseVolumeKey_sample _ _ _ _ Hp).
  - intros k s Hin%elem_of_map_to_list. by apply (Hwf k s).
Qed.

(** X7. First detection: a call that sees a hotplug-eligible volume
    absent from the template and finds no record for it leaves a record
    with the time of the call and [confirmed] false (names without
    ["/"]). *)
Theorem first_detection now vmi vm name (volumes volumes' : Ledger) :
  slashFree (vmiNamespace vmi) → slashFree (vmiName vmi) → slashFree name →
  hotplugIn vmi name → ¬ declaredBy vm name →
  volumes !! trackerKey (vmiNamespace vmi) (vmiName vmi) name = None →
  UpdateEphemeralVolumeCount now (Some vmi) (Some vm) volumes = Some volumes' →
  volumes' !! trackerKey (vmiNamespace vmi) (vmiName vmi) name
  = Some (mkStatus now false).
Proof.
  intros Hns Hn Hv Hhot Hdecl Hnone Hcall.
  rewrite (UpdateEphemeralVolumeCount_lookup _ _ _ _ _ _ Hcall).
  rewrite firstLoop_undeclared, Hnone by done. simpl.
  rewrite sweepEntry_live by done. simpl. by rewrite Int64_sub_diag.
Qed.

Lemma first_detection_witness :
  Scenario.tracked !! trackerKey "ns" "a" "v" = Some (mkStatus 0 false).
Proof.
  apply (first_detection 0 Scenario.vmiA Scenario.vmNone "v" ∅ Scenario.tracked);
    try reflexivity.
  - exists (Scenario.hotplug "v").
    split; [apply list_elem_of_here | split; reflexivity].
  - intros (v & Hin & _). inversion Hin.
Defined.

(** X8. From detection to the sample: when a call first detects an
    undeclared hotplug volume at [now1] and the next call for the same
    objects is made at [now2] with [now2 - now1 > 2], the record is
    confirmed with the timestamp [now1] and the collector callback
    reports the volume with its namespace, instance name and volume
    name. *)
Theorem detection_confirmed_and_reported now1 now2 vmi vm name
    (volumes volumes'' : Ledger) :
  wfLedger volumes →
  slashFree (vmiNamespace vmi) → slashFree (vmiName vmi) → slashFree name →
  hotplugIn vmi name → ¬ declaredBy vm name →
  volumes !! trackerKey (vmiNamespace vmi) (vmiName vmi) name = None →
  2 < Int64.sub now2 now1 →
  observeAll [mkObservation now1 (Some vmi) (Some vm);
              mkObservation now2 (Some vmi) (Some vm)] volumes
  = Some volumes'' →
  volumes'' !! trackerKey (vmiNamespace vmi) (vmiName vmi) name
  = Some (mkStatus now1 true) ∧
  emits volumes'' [vmiNamespace vmi; vmiName vmi; name].
Proof.
  intros Hwf Hns Hn Hv Hhot Hdecl Hnone Hlt Hall. simpl in Hall.
  destruct (observe _ volumes) as [volumes1|] eqn:Hcall1; [|done].
  simpl in Hall.
  destruct (observe _ volumes1) as [volumes2|] eqn:Hcall2; [|done].
  simpl in Hall. injection Hall as <-.
  pose proof (observe_wf _ _ _ Hwf Hcall1) as Hwf1.
  pose proof (observe_wf _ _ _ Hwf1 Hcall2) as Hwf2.
  unfold observe in Hcall1, Hcall2. cbn [obsNow obsVmi obsVm] in Hcall1, Hcall2.
  assert (Hst1 : volumes1 !! trackerKey (vmiNamespace vmi) (vmiName vmi) name
                 = Some (mkStatus now1 false)).
  { rewrite (UpdateEphemeralVolumeCount_lookup _ _ _ _ _ _ Hcall1).
    rewrite firstLoop_undeclared, Hnone by done. simpl.
    rewrite sweepEntry_live by done. simpl. by rewrite Int64_sub_diag. }
  destruct (observe_undeclared _ _ _ _ _ _ _ Hns Hn Hv Hhot Hdecl Hst1 Hcall2)
    as [_ Hst2].
  simpl in Hst2. rewrite (proj2 (Z.ltb_lt _ _) Hlt) in Hst2.
  split; [done|].
  apply (emits_present volumes2
           (trackerKey (vmiNamespace vmi) (vmiName vmi) name)
           (mkStatus now1 true)); try done.
  unfold parseVolumeKey. by rewrite (Split_trackerKey _ _ _ Hns Hn Hv).
Qed.

Lemma detection_confirmed_and_reported_witness :
  Scenario.trackedConfirmed !! trackerKey "ns" "a" "v" = Some (mkStatus 0 true) ∧
  emits Scenario.trackedConfirmed ["ns"; "a"; "v"].
Proof.
  apply (detection_confirmed_and_reported 0 3 Scenario.vmiA Scenario.vmNone "v"
           ∅ Scenario.trackedConfirmed); try reflexivity.
  - apply map_Forall_empty.
  - exists (Scenario.hotplug "v").
    split; [apply list_elem_of_here | split; reflexivity].
  - intros (v & Hin & _). inversion Hin.
Defined.

(** ** What a call depends on *)

(** The result of a call with both objects set: a panic when the
    template pointer is nil or when the first loop leaves a key of fewer
    than three pieces, else the map of the first loop with every record
    swept or confirmed. *)
Lemma UpdateEphemeralVolumeCount_spec now vmi vm (volumes : Ledger) :
  UpdateEphemeralVolumeCount now (Some vmi) (Some vm) volumes
  = match vmTemplate vm with
    | None => None
    | Some _ =>
        if decide (wfLedger (firstLoop now vmi vm volumes).2)
        then Some (map_imap (sweepEntry now (firstLoop now vmi vm volumes).1)
                     (firstLoop now vmi vm volumes).2)
        else None
    end.
Proof.
  unfold UpdateEphemeralVolumeCount. rewrite UpdateEphemeralVolumeCountIn_unfold.
  destruct (vmTemplate vm); [|done].
  destruct (decide _) as [Hwf|Hwf]; [by apply sweep_spec | by apply sweep_not_wf].
Qed.

Lemma existsb_touches vmi key :
  existsb (touches vmi key) (vmiVolumes vmi) = true
  ↔ ∃ name, hotplugIn vmi name
            ∧ trackerKey (vmiNamespace vmi) (vmiName vmi) name = key.
Proof.
  rewrite existsb_exists. unfold touches, hotplugIn. split.
  - intros (u & Hu & [Hh Hk%bool_decide_eq_true]%andb_true_iff).
    exists (volumeName u). split; [|done]. exists u. by rewrite list_elem_of_In.
  - intros (name & (u & Hu & Hh & <-) & Hk). exists u.
    rewrite <- list_elem_of_In, Hh. split; [done|]. by apply bool_decide_eq_true.
Qed.

Lemma existsb_touches_declared vmi vm key :
  existsb (λ u, touches vmi key u
                && declaredIn (indexVolumes (vmTemplateVolumes vm)) u)
    (vmiVolumes vmi) = true
  ↔ ∃ name, hotplugIn vmi name ∧ declaredBy vm name
            ∧ trackerKey (vmiNamespace vmi) (vmiName vmi) name = key.
Proof.
  rewrite existsb_exists. unfold touches, hotplugIn. split.
  - intros (u & Hu & [[Hh Hk%bool_decide_eq_true]%andb_true_iff
                       Hd%declaredIn_declaredBy]%andb_true_iff).
    exists (volumeName u). split; [|done]. exists u. by rewrite list_elem_of_In.
  - intros (name & (u & Hu & Hh & <-) & Hd & Hk). exists u.
    rewrite <- list_elem_of_In, Hh. split; [done|].
    apply andb_true_iff. split; [by apply bool_decide_eq_true|].
    by apply declaredIn_declaredBy.
Qed.

(** The second loop reads the map of live hotplug volumes for
    membership only. *)
Lemma sweepEntry_ext now (m1 m2 : VolumeMap) key st :
  (∀ name, is_Some (m1 !! name) ↔ is_Some (m2 !! name)) →
  sweepEntry now m1 key st = sweepEntry now m2 key st.
Proof.
  intros H. unfold sweepEntry.
  destruct (parseVolumeKey key) as [[[? ?] name]|]; [|done]. simpl.
  specialize (H name).
  destruct (m1 !! name) as [v1|], (m2 !! name) as [v2|]; try done.
  - destruct (proj1 H) as [? [=]]. eauto.
  - destruct (proj2 H) as [? [=]]. eauto.
Qed.

(** X9. A call reads the two objects for names only: two live instances
    with the same namespace, name and set of names of hotplug-eligible
    volumes, and two templates (both set, or both nil) that declare the
    same names, give the same result on every map. The other volumes of
    the instance, the order and repetition of the volumes and their
    contents do not matter. *)
Theorem update_depends_on_names now vmi1 vmi2 vm1 vm2 (volumes : Ledger) :
  vmiNamespace vmi1 = vmiNamespace vmi2 → vmiName vmi1 = vmiName vmi2 →
  (∀ name, hotplugIn vmi1 name ↔ hotplugIn vmi2 name) →
  (is_Some (vmTemplate vm1) ↔ is_Some (vmTemplate vm2)) →
  (∀ name, declaredBy vm1 name ↔ declaredBy vm2 name) →
  UpdateEphemeralVolumeCount now (Some vmi1) (Some vm1) volumes
  = UpdateEphemeralVolumeCount now (Some vmi2) (Some vm2) volumes.
Proof.
  intros Hns Hn Hhot Htmpl Hdecl.
  assert (Hfirst : (firstLoop now vmi1 vm1 volumes).2
                   = (firstLoop now vmi2 vm2 volumes).2).
  { apply map_eq. intros key. rewrite !firstLoop_lookup, !foldl_trackKey.
    assert (E1 : existsb (touches vmi1 key) (vmiVolumes vmi1)
                 = existsb (touches vmi2 key) (vmiVolumes vmi2)).
    { apply eq_true_iff_eq. rewrite !existsb_touches, Hns, Hn.
      by setoid_rewrite Hhot. }
    assert (E2 : existsb (λ u, touches vmi1 key u
                   && declaredIn (indexVolumes (vmTemplateVolumes vm1)) u)
                   (vmiVolumes vmi1)
                 = existsb (λ u, touches vmi2 key u
                   && declaredIn (indexVolumes (vmTemplateVolumes vm2)) u)
                   (vmiVolumes vmi2)).
    { apply eq_true_iff_eq. rewrite !existsb_touches_declared, Hns, Hn.
      setoid_rewrite Hhot. by setoid_rewrite Hdecl. }
    by rewrite E1, E2. }
  rewrite !UpdateEphemeralVolumeCount_spec, Hfirst.
  destruct (vmTemplate vm1) as [t1|], (vmTemplate vm2) as [t2|]; try done;
    [|by destruct (proj1 Htmpl) as [? [=]]; eauto
     |by destruct (proj2 Htmpl) as [? [=]]; eauto].
  destruct (decide _); [|done]. f_equal. apply map_eq. intros key.
  rewrite !map_lookup_imap.
  destruct (_ !! key) as [st|]; [|done]. simpl.
  apply sweepEntry_ext. intros name.
  by rewrite (firstLoop_hotplug now vmi1 vm1), (firstLoop_hotplug now vmi2 vm2).
Qed.

Lemma update_depends_on_names_witness :
  UpdateEphemeralVolumeCount 3 (Some Scenario.vmiA) (Some Scenario.vmNone)
    Scenario.tracked
  = UpdateEphemeralVolumeCount 3
      (Some (mkVMI "ns" "a"
               [mkVolume "boot" (mkVolumeSource None None);
                Scenario.hotplug "v"; Scenario.hotplug "v"]))
      (Some Scenario.vmNone) Scenario.tracked.
Proof.
  apply (update_depends_on_names 3 Scenario.vmiA
           (mkVMI "ns" "a"
              [mkVolume "boot" (mkVolumeSource None None);
               Scenario.hotplug "v"; Scenario.hotplug "v"])
           Scenario.vmNone Scenario.vmNone Scenario.tracked);
    try reflexivity.
  intros name. unfold hotplugIn. simpl. split.
  - intros (u & Hin & Hh & Hn). exists u. split; [|done].
    by do 2 apply list_elem_of_further.
  - intros (u & Hin & Hh & Hn). exists u. split; [|done].
    apply elem_of_cons in Hin as [->|Hin]; [discriminate|].
    by apply elem_of_cons in Hin as [->|Hin]; [apply list_elem_of_here|].
Defined.

Lemma sweepEntry_idemp now (m : VolumeMap) key st st' :
  sweepEntry now m key st = Some st' → sweepEntry now m key st' = Some st'.
Proof.
  unfold sweepEntry.
  destruct (parseVolumeKey key) as [[[? ?] name]|]; [|done]. simpl.
  destruct (m !! name); [|done].
  destruct (2 <? Int64.sub now (timestamp st)) eqn:E; intros [= <-].
  - simpl. by rewrite E.
  - by rewrite E.
Qed.

Lemma sweepEntry_None now (m : VolumeMap) key st st' :
  sweepEntry now m key st = None → sweepEntry now m key st' = None.
Proof.
  unfold sweepEntry.
  destruct (parseVolumeKey key) as [[[? ?] name]|]; [|done]. simpl.
  by destruct (m !! name).
Qed.

Lemma sweepEntry_timestamp now (m : VolumeMap) key st st' :
  sweepEntry now m key st = Some st' → timestamp st' = timestamp st.
Proof.
  unfold sweepEntry.
  destruct (parseVolumeKey key) as [[[? ?] name]|]; [|done]. simpl.
  destruct (m !! name); [|done].
  by destruct (2 <? _); intros [= <-].
Qed.

(** X10. A call repeated with the same objects at the same clock reading
    changes nothing: the map a call leaves is a fixed point of that
    call. *)
Theorem update_idempotent now vmi vm (volumes volumes' : Ledger) :
  UpdateEphemeralVolumeCount now (Some vmi) (Some vm) volumes = Some volumes' →
  UpdateEphemeralVolumeCount now (Some vmi) (Some vm) volumes' = Some volumes'.
Proof.
  intros Hcall.
  assert (Hwf' : wfLedger volumes').
  { rewrite UpdateEphemeralVolumeCount_spec in Hcall.
    destruct (vmTemplate vm); [|done].
    destruct (decide _) as [Hwf|]; [|done]. injection Hcall as <-.
    by apply sweepEntry_wf. }
  rewrite UpdateEphemeralVolumeCount_spec.
  assert (Htmpl : is_Some (vmTemplate vm)).
  { rewrite UpdateEphemeralVolumeCount_spec in Hcall.
    by destruct (vmTemplate vm). }
  destruct Htmpl as [templateVolumes ->].
  rewrite decide_True by by apply firstLoop_wf.
  f_equal. apply map_eq. intros key. rewrite map_lookup_imap.
  assert (Hext : ∀ st, sweepEntry now (firstLoop now vmi vm volumes').1 key st
                       = sweepEntry now (firstLoop now vmi vm volumes).1 key st).
  { intros st. apply sweepEntry_ext. intros name.
    by rewrite !firstLoop_hotplug. }
  pose proof (UpdateEphemeralVolumeCount_lookup _ _ _ _ _ key Hcall) as Hl.
  rewrite firstLoop_lookup, foldl_trackKey in Hl.
  rewrite firstLoop_lookup, foldl_trackKey.
  destruct (existsb (touches vmi key) _);
    [destruct (existsb (λ u, _ && _) _)|].
  - destruct (volumes' !! key) as [st'|] eqn:Hst'; [|done].
    destruct (volumes !! key) as [st|]; [|done]. simpl in *.
    destruct (Int64.sub now (timestamp st) <=? 60) eqn:E; [done|].
    simpl in Hl. symmetry in Hl.
    rewrite (sweepEntry_timestamp _ _ _ _ _ Hl), E. simpl.
    rewrite Hext. by apply (sweepEntry_idemp now _ key st).
  - destruct (volumes' !! key) as [st'|] eqn:Hst'; simpl.
    + destruct (create now (volumes !! key)) as [st|]; [|done].
      simpl in Hl. symmetry in Hl.
      rewrite Hext. by apply (sweepEntry_idemp now _ key st).
    + destruct (create now (volumes !! key)) as [st|] eqn:Ec;
        [|by destruct (volumes !! key)].
      simpl in Hl. symmetry in Hl.
      rewrite Hext. by apply (sweepEntry_None now _ key st).
  - destruct (volumes' !! key) as [st'|] eqn:Hst'; [|done]. simpl.
    destruct (volumes !! key) as [st|]; [|done].
    simpl in Hl. symmetry in Hl.
    rewrite Hext. by apply (sweepEntry_idemp now _ key st).
Qed.

Lemma update_idempotent_witness :
  UpdateEphemeralVolumeCount 3 (Some Scenario.vmiA) (Some Scenario.vmNone)
    Scenario.trackedConfirmed = Some Scenario.trackedConfirmed.
Proof.
  apply (update_idempotent 3 Scenario.vmiA Scenario.vmNone Scenario.tracked).
  vm_compute. reflexivity.
Defined.

(** ** Labels of the reported samples *)

(** X11. When the names of the observed objects have no ["/"], the
    collector callback never returns two samples with the same label
    values, whatever the iteration order: every key of the tracker has
    exactly three pieces, and the labels determine the key. *)
Theorem callback_labels_distinct os order (volumes volumes' : Ledger) results :
  Forall slashFreeObservation os →
  observeAll os ∅ = Some volumes →
  rangeOrder order →
  EphemeralVolumeMetricsCallbackIn order volumes = Some (results, volumes') →
  NoDup (resLabels <$> results).
Proof.
  intros Hfree Hall Horder Hcb.
  assert (Hcan : canonicalLedger volumes).
  { apply (observeAll_canonical os ∅); [apply map_Forall_empty | done..]. }
  unfold EphemeralVolumeMetricsCallbackIn in Hcb.
  rewrite collect_spec in Hcb.
  2:{ intros key st Hin. rewrite (Horder volumes) in Hin.
      apply elem_of_map_to_list in Hin. apply parseVolumeKey_is_Some.
      by rewrite (Hcan key st Hin). }
  simpl in Hcb. injection Hcb as <- _.
  rewrite <- list_fmap_compose.
  apply NoDup_fmap_2_strong.
  - intros [k1 s1] [k2 s2] [_ H1]%list_elem_of_filter [_ H2]%list_elem_of_filter Heq.
    rewrite (Horder volumes) in H1, H2.
    apply elem_of_map_to_list in H1, H2.
    pose proof (Hcan k1 s1 H1) as Hl1. pose proof (Hcan k2 s2 H2) as Hl2.
    simpl in Hl1, Hl2. unfold compose, sample in Heq. simpl in Heq.
    rewrite !firstn_all2 in Heq by lia.
    assert (k1 = k2)
      by by rewrite <- (Join_Split slash k1), <- (Join_Split slash k2), Heq.
    subst k2. by simplify_eq.
  - apply NoDup_filter. rewrite (Horder volumes). apply NoDup_map_to_list.
Qed.

Lemma callback_labels_distinct_witness :
  ∃ results,
    EphemeralVolumeMetricsCallback Scenario.bothConfirmed
    = Some (results, Scenario.bothConfirmed) ∧
    length results = 2%nat ∧
    NoDup (resLabels <$> results).
Proof.
  eexists. split; [vm_compute; reflexivity|]. split; [reflexivity|].
  apply (callback_labels_distinct
           [mkObservation 0 (Some Scenario.vmiVW) (Some Scenario.vmNone);
            mkObservation 3 (Some Scenario.vmiVW) (Some Scenario.vmNone)]
           map_to_list Scenario.bothConfirmed Scenario.bothConfirmed).
  - assert (H : ∀ now, slashFreeObservation
                  (mkObservation now (Some Scenario.vmiVW) (Some Scenario.vmNone))).
    { intros now vmi [= <-]. split; [reflexivity|]. split; [reflexivity|].
      intros name (v & Hin & _ & <-).
      apply elem_of_cons in Hin as [->|Hin]; [reflexivity|].
      apply list_elem_of_singleton in Hin as ->. reflexivity. }
    constructor; [apply H | constructor; [apply H | constructor]].
  - vm_compute. reflexivity.
  - intros volumes. reflexivity.
  - vm_compute. reflexivity.
Defined.

(** ** Records of other instances that share a volume name *)

(** X13. A call keeps the record of another instance when the third
    piece of its key names a hotplug-eligible volume of the instance of
    the call, and confirms it by its own clock reading: such a record is
    afterwards the old record, with [confirmed] set when more than 2
    have elapsed since its timestamp. *)
Theorem shared_name_record_kept now vmi vm (volumes volumes' : Ledger)
    key p0 p1 name st :
  UpdateEphemeralVolumeCount now (Some vmi) (Some vm) volumes = Some volumes' →
  volumes !! key = Some st →
  parseVolumeKey key = Some (p0, p1, name) →
  hotplugIn vmi name →
  (∀ volume, hotplugIn vmi volume →
             trackerKey (vmiNamespace vmi) (vmiName vmi) volume ≠ key) →
  volumes' !! key
  = Some (if 2 <? Int64.sub now (timestamp st) then confirm st else st).
Proof.
  intros Hcall Hst Hp Hhot Hother.
  rewrite (UpdateEphemeralVolumeCount_lookup _ _ _ _ _ key Hcall).
  rewrite firstLoop_lookup, foldl_trackKey.
  destruct (existsb (touches vmi key) _) eqn:Et.
  { apply existsb_touches in Et as (v & Hv & Hk). by destruct (Hother v Hv). }
  rewrite Hst. simpl. unfold sweepEntry. rewrite Hp. simpl.
  by destruct (proj2 (firstLoop_hotplug now vmi vm volumes name) Hhot) as [v ->].
Qed.

Lemma shared_name_record_kept_witness :
  ∃ volumes',
    UpdateEphemeralVolumeCount 5
      (Some (mkVMI "ns" "c" [Scenario.hotplug "v"])) (Some Scenario.vmV)
      Scenario.tracked = Some volumes' ∧
    volumes' !! "ns/a/v" = Some (mkStatus 0 true).
Proof.
  exists Scenario.trackedConfirmed.
  assert (Hcall : UpdateEphemeralVolumeCount 5
                    (Some (mkVMI "ns" "c" [Scenario.hotplug "v"]))
                    (Some Scenario.vmV) Scenario.tracked
                  = Some Scenario.trackedConfirmed) by (vm_compute; reflexivity).
  split; [exact Hcall|].
  apply (shared_name_record_kept 5 (mkVMI "ns" "c" [Scenario.hotplug "v"])
           Scenario.vmV Scenario.tracked Scenario.trackedConfirmed
           "ns/a/v" "ns" "a" "v" (mkStatus 0 false) Hcall);
    try reflexivity.
  - exists (Scenario.hotplug "v").
    split; [apply list_elem_of_here | split; reflexivity].
  - intros volume (v & Hin & _ & <-).
    apply list_elem_of_singleton in Hin as ->. discriminate.
Defined.

(** ** Negative values of the gauge *)

Lemma of_int64_neg m :
  Z.pos m < 2 ^ 53 → Float64.to_Z (Float64.of_int64 (Z.neg m)) = Some (Z.neg m).
Proof.
  intros Hm. pose proof (digits2_pos_lower m) as Hlow.
  assert (Hd : Z.pos (digits2_pos m) <= 53).
  { destruct (Z.le_gt_cases (Z.pos (digits2_pos m)) 53) as [?|Hgt]; [done|].
    assert (2 ^ 53 <= 2 ^ (Z.pos (digits2_pos m) - 1))
      by (apply Z.pow_le_mono_r; lia).
    lia. }
  unfold Float64.of_int64, binary_normalize, binary_round, shl_align, fexp, emin.
  unfold Float64.prec, Float64.emax.
  replace (Z.max (Z.pos (digits2_pos m) + 0 - 53) (3 - 1024 - 53) - 0)
    with (Z.pos (digits2_pos m) - 53) by lia.
  destruct (Z.pos (digits2_pos m) - 53) as [|p|p] eqn:E; [|lia|].
  - rewrite binary_round_aux_exact by lia. simpl. f_equal. lia.
  - replace (Z.max (Z.pos (digits2_pos m) + 0 - 53) (3 - 1024 - 53))
      with (Z.neg p) by lia.
    rewrite binary_round_aux_exact by (rewrite ?iter_xO_digits; lia).
    unfold Float64.to_Z. change (0 <=? Z.neg p) with false.
    cbn [Z.opp cond_Zopp].
    by rewrite iter_xO_value, Z.mod_mul, Z.div_mul by lia.
Qed.

(** X12. [SetVmiLaucherMemoryOverhead] does not check the sign of the
    value: a negative [X] down to [-2^53] is stored and read back
    exactly, without error, like a positive one. *)
Theorem memory_overhead_negative (vmi : VirtualMachineInstance) (X : Z)
    (g : GaugeVec.t) :
  - 2 ^ 53 <= X < 0 →
  GetVmiLaucherMemoryOverhead vmi (SetVmiLaucherMemoryOverhead vmi X g)
  = (Float64.of_int64 X, None) ∧
  Float64.to_Z (Float64.of_int64 X) = Some X.
Proof.
  intros HX. split.
  - by rewrite GetVmiLaucherMemoryOverhead_lookup,
      SetVmiLaucherMemoryOverhead_insert, lookup_insert_eq.
  - destruct (decide (X = - 2 ^ 53)) as [->|Hne]; [vm_compute; reflexivity|].
    destruct X as [|m|m]; [lia | lia | apply of_int64_neg].
    change (2 ^ 53) with 9007199254740992 in *. lia.
Qed.

Lemma memory_overhead_negative_witness :
  GetVmiLaucherMemoryOverhead Scenario.vmiA
    (SetVmiLaucherMemoryOverhead Scenario.vmiA (-4096) GaugeVec.empty)
  = (Float64.of_int64 (-4096), None) ∧
  Float64.to_Z (Float64.of_int64 (-4096)) = Some (-4096).
Proof.
  apply (memory_overhead_negative Scenario.vmiA (-4096) GaugeVec.empty). lia.
Defined.

(** ** A stored key of fewer than three pieces *)

(** X14. A record whose key has fewer than three pieces is fatal: every
    call with both objects set panics in the second loop, whatever the
    objects and the iteration order, and the collector callback panics
    as soon as that record is confirmed. *)
Theorem short_key_panics order now vmi vm (volumes : Ledger) key st :
  rangeOrder order →
  volumes !! key = Some st → parseVolumeKey key = None →
  UpdateEphemeralVolumeCountIn order now (Some vmi) (Some vm) volumes = None ∧
  (confirmed st = true →
   EphemeralVolumeMetricsCallbackIn order volumes = None).
Proof.
  intros Horder Hst Hp. split.
  - rewrite UpdateEphemeralVolumeCountIn_unfold.
    destruct (vmTemplate vm); [|done].
    apply sweep_not_wf; [apply Horder|]. intros Hwf.
    assert (Hkey : (firstLoop now vmi vm volumes).2 !! key = Some st).
    { rewrite firstLoop_lookup, foldl_trackKey.
      destruct (existsb (touches vmi key) _) eqn:Et; [|done].
      apply existsb_touches in Et as (v & _ & <-).
      destruct (trackerKey_parses (vmiNamespace vmi) (vmiName vmi) v) as [? H].
      by rewrite H in Hp. }
    destruct (Hwf key st Hkey) as [? H]. by rewrite H in Hp.
  - intros Hc. unfold EphemeralVolumeMetricsCallbackIn.
    assert (Hin : (key, st) ∈ order volumes)
      by (rewrite (Horder volumes); by apply elem_of_map_to_list).
    assert (H : ∀ l acc, (key, st) ∈ l → collect l acc = None).
    { induction l as [|[k s] l IH]; intros acc Hl; [by inversion Hl|].
      simpl. apply elem_of_cons in Hl as [[= <- <-]|Hl].
      - by rewrite Hc, Hp.
      - destruct (confirmed s); simpl; [|by apply IH].
        destruct (parseVolumeKey k) as [[[? ?] ?]|]; simpl; [by apply IH|done]. }
    by rewrite (H _ [] Hin).
Qed.

Lemma short_key_panics_witness :
  UpdateEphemeralVolumeCountIn map_to_list 1 (Some Scenario.vmiA)
    (Some Scenario.vmNone) {[ "ns/a" := mkStatus 0 true ]} = None ∧
  (confirmed (mkStatus 0 true) = true →
   EphemeralVolumeMetricsCallbackIn map_to_list {[ "ns/a" := mkStatus 0 true ]}
   = None).
Proof.
  apply (short_key_panics map_to_list 1 Scenario.vmiA Scenario.vmNone
           {[ "ns/a" := mkStatus 0 true ]} "ns/a" (mkStatus 0 true)).
  - intros volumes. reflexivity.
  - reflexivity.
  - reflexivity.
Defined.
